(** * Airlock HIL test bench: simulation and protocol engine

    A shallow embedding of the logic of [src/airlock_gui.py] (class
    [AirlockGUI]): the derivation of the sensor booleans from the rover
    position ([update_sensors]), the two gate motion state machines
    ([process_gate_requests], [animate_gates]) and the telegram codec
    ([send_data], [read_arduino_data]).

    Further down come the framing of a typed command ([send_command]), the
    easing curve and the rectangle of a drawn gate ([ease_in_out_cubic],
    [draw_gates]), the particles, the mouse handlers, and the decoding of
    the bytes of a received line.  Widgets, the canvas calls, the throttled
    redraw and the serial port itself are presentation or I/O and are left
    out; none of them writes an attribute that the functions below read.

    Numbers.  The Python code computes with [float].  The model is written
    once over an interface [PyNum] of the arithmetic the code uses and is
    instantiated twice: with the rationals [Q] (exact arithmetic, in which
    the properties that hold of every run are stated and proved) and with the
    primitive binary64 floats of Rocq (the arithmetic Python really performs),
    on which concrete runs are evaluated and to which the properties that do
    not depend on the arithmetic apply as well. *)

From Stdlib Require Import QArith Qminmax Lqa ZArith Bool List String Ascii.
From Stdlib Require Import PrimFloat Uint63 FloatOps SpecFloat Qabs.
From stdpp Require Import gmap strings.
Import ListNotations.

Local Open Scope string_scope.

(** ** The arithmetic of the source *)

Class PyNum (F : Type) := {
  of_Z : Z -> F;            (* an integer literal, or an int met by a float *)
  fadd : F -> F -> F;       (* a + b *)
  fsub : F -> F -> F;       (* a - b *)
  fmul : F -> F -> F;       (* a * b *)
  fdiv : F -> F -> F;       (* a / b *)
  fltb : F -> F -> bool;    (* a < b *)
  fleb : F -> F -> bool     (* a <= b *)
}.

Declare Scope num_scope.
Delimit Scope num_scope with num.
Notation "a + b" := (fadd a b) : num_scope.
Notation "a - b" := (fsub a b) : num_scope.
Notation "a * b" := (fmul a b) : num_scope.
Notation "a / b" := (fdiv a b) : num_scope.
Notation "a <? b" := (fltb a b) : num_scope.
Notation "a <=? b" := (fleb a b) : num_scope.
Notation "a >? b" := (fltb b a) (at level 70) : num_scope.
Notation "a >=? b" := (fleb b a) (at level 70) : num_scope.

(** Exact arithmetic. *)
#[export] Instance exact : PyNum Q := {|
  of_Z := inject_Z;
  fadd := Qplus;
  fsub := Qminus;
  fmul := Qmult;
  fdiv := Qdiv;
  fltb := fun a b => negb (Qle_bool b a);
  fleb := Qle_bool
|}.

(** IEEE 754 binary64, the [float] of CPython. *)
#[export] Instance binary64 : PyNum float := {|
  of_Z := fun z => match z with
                   | Zneg _ => PrimFloat.opp (PrimFloat.of_uint63 (Uint63.of_Z (Z.opp z)))
                   | _ => PrimFloat.of_uint63 (Uint63.of_Z z)
                   end;
  fadd := PrimFloat.add;
  fsub := PrimFloat.sub;
  fmul := PrimFloat.mul;
  fdiv := PrimFloat.div;
  fltb := PrimFloat.ltb;
  fleb := PrimFloat.leb
|}.

(** ** Strings: the few [str] methods the codec uses *)

(** [s.startswith(c)] for a one-character [c]. *)
Definition startswith (c : ascii) (s : string) : bool :=
  match s with
  | String c' _ => Ascii.eqb c' c
  | EmptyString => false
  end.

(** [s[-1]]: the last character; [None] stands for the [IndexError] that
    Python raises on the empty string. *)
Fixpoint last_char (s : string) : option ascii :=
  match s with
  | EmptyString => None
  | String c EmptyString => Some c
  | String _ r => last_char r
  end.

(** [s.endswith(c)] for a one-character [c]. *)
Definition endswith (c : ascii) (s : string) : bool :=
  match last_char s with
  | Some c' => Ascii.eqb c' c
  | None => false
  end.

(** [s[:-1]]. *)
Fixpoint drop_last (s : string) : string :=
  match s with
  | EmptyString => EmptyString
  | String _ EmptyString => EmptyString
  | String c r => String c (drop_last r)
  end.

(** [s[1:-1]]. *)
Definition strip_delimiters (s : string) : string :=
  match s with
  | EmptyString => EmptyString
  | String _ r => drop_last r
  end.

(** [s.split(sep)] with an explicit one-character separator: every
    occurrence splits; the empty string gives one empty segment. *)
Fixpoint split (sep : ascii) (s : string) : list string :=
  match s with
  | EmptyString => [EmptyString]
  | String c r =>
      if Ascii.eqb c sep then EmptyString :: split sep r
      else match split sep r with
           | h :: t => String c h :: t
           | [] => [String c EmptyString]
           end
  end.

(** [c in s]. *)
Fixpoint contains (c : ascii) (s : string) : bool :=
  match s with
  | EmptyString => false
  | String c' r => Ascii.eqb c' c || contains c r
  end.

(** [sep.join(parts)]. *)
Fixpoint join (sep : string) (parts : list string) : string :=
  match parts with
  | [] => EmptyString
  | [p] => p
  | p :: rest => p +:+ sep +:+ join sep rest
  end.

(** ** Dictionaries

    [self.sensor_states] is iterated by [send_data], so its insertion order
    matters: it is an association list, and an assignment to a key keeps the
    key's position (a new key goes to the end), as in a Python [dict].
    [self.gate_requests] is only looked up and assigned by key: a [gmap]. *)

Definition dict := list (string * bool).

Fixpoint dict_set (k : string) (v : bool) (d : dict) : dict :=
  match d with
  | [] => [(k, v)]
  | (k', v') :: r =>
      if String.eqb k' k then (k', v) :: r else (k', v') :: dict_set k v r
  end.

Fixpoint dict_get (k : string) (d : dict) : option bool :=
  match d with
  | [] => None
  | (k', v') :: r => if String.eqb k' k then Some v' else dict_get k r
  end.

Definition dict_keys (d : dict) : list string := map fst d.

(** ** Exceptions *)

Inductive exn := IndexError | ValueError | KeyError | UnicodeDecodeError.

(** The result of a method on the state: it returns, or it raises, and in
    both cases leaves a state behind (the attributes assigned before the
    [raise] stay assigned). *)
Inductive outcome (A : Type) :=
| Returns (a : A)
| Raises (e : exn) (a : A).
Arguments Returns {A} a.
Arguments Raises {A} e a.

Definition state_of {A : Type} (o : outcome A) : A :=
  match o with
  | Returns a => a
  | Raises _ a => a
  end.

Definition raised {A : Type} (o : outcome A) : option exn :=
  match o with
  | Returns _ => None
  | Raises e _ => Some e
  end.

(** ** The telegram codec *)

(** *** Outbound: the message of [send_data] *)

(** ["1" if state else "0"]. *)
Definition bit (state : bool) : string := if state then "1" else "0".

(** The loop over [self.sensor_states.items()], which leaves out the two
    [GATE_MOVING_] entries of the dictionary. *)
Fixpoint sensor_parts (items : dict) : list string :=
  match items with
  | [] => []
  | (name, state) :: rest =>
      if negb (String.eqb name "GATE_MOVING_A" || String.eqb name "GATE_MOVING_B")
      then (name +:+ ":" +:+ bit state) :: sensor_parts rest
      else sensor_parts rest
  end.

(** The message built from the dictionary and the two [gate_?_moving]
    attributes. *)
Definition encode (ss : dict) (gate_a_moving gate_b_moving : bool) : string :=
  let data_parts := sensor_parts ss in
  let data_parts := (data_parts ++ ["GATE_MOVING_A:" +:+ bit gate_a_moving])%list in
  let data_parts := (data_parts ++ ["GATE_MOVING_B:" +:+ bit gate_b_moving])%list in
  "<" +:+ join "," data_parts +:+ ">".

(** *** Inbound: the parsing loop of [read_arduino_data] *)

(** The body of [for pair in pairs] ([item] is the [pair] of the source),
    on [self.gate_requests].  The tuple
    assignment [name, value = pair.split(':')] needs exactly two parts and
    raises [ValueError] otherwise. *)
Fixpoint parse_pairs (pairs : list string) (requests : gmap string bool)
    : outcome (gmap string bool) :=
  match pairs with
  | [] => Returns requests
  | item :: rest =>
      if contains ":" item then
        match split ":" item with
        | [name; value] =>
            match requests !! name with
            | Some _ =>
                parse_pairs rest (<[name := String.eqb value "1"]> requests)
            | None => parse_pairs rest requests
            end
        | _ => Raises ValueError requests
        end
      else parse_pairs rest requests
  end.

(** [data = line[1:-1]; pairs = data.split(','); for pair in pairs: ...] *)
Definition decode_pairs (line : string) (requests : gmap string bool)
    : outcome (gmap string bool) :=
  let data := strip_delimiters line in
  let pairs := split "," data in
  parse_pairs pairs requests.

(** ** The simulated world *)

Section Model.
Context {F : Type} `{PyNum F}.
Local Open Scope num_scope.

(** A decimal literal [n/d] ([0.1] is [lit 1 10]).  In binary64 the quotient
    of two small integers is correctly rounded, hence the very double that
    Python reads the literal as. *)
Definition lit (n d : Z) : F := of_Z n / of_Z d.

(** [min(a, b)] of Python: the second argument wins only when it is strictly
    smaller. *)
Definition py_min (a b : F) : F := if b <? a then b else a.

(** The per-gate attributes; for gate A these are [self.gate_a_open],
    [self.gate_a_moving], [self.gate_animation_progress_a],
    [self.gate_a_animation_time] and [self.gate_a_target_state], and the same
    with [b] for gate B. *)
Record gate := mk_gate {
  gate_open : bool;
  gate_moving : bool;
  gate_animation_progress : F;
  gate_animation_time : F;
  gate_target_state : bool
}.

Record airlock := mk_airlock {
  rover_x : F;
  gate_a : gate;
  gate_b : gate;
  sensor_states : dict;
  gate_requests : gmap string bool
}.

(** *** Constants of [__init__] *)

Definition scale : F := lit 1 2.
Definition front_zone_width : F := of_Z 408 * scale.
Definition middle_zone_width : F := of_Z 560 * scale.
Definition back_zone_width : F := of_Z 408 * scale.
Definition rover_width : F := of_Z 638 * scale * lit 4 10.
Definition gate_a_x : F := front_zone_width.
Definition gate_b_x : F := front_zone_width + middle_zone_width.
Definition gate_animation_duration : F := of_Z 3.
Definition start_x : F := of_Z 100.

(** [dt] of [animate_gates]. *)
Definition dt : F := lit 1 10.

Definition initial_gate : gate :=
  {| gate_open := false;
     gate_moving := false;
     gate_animation_progress := of_Z 0;
     gate_animation_time := of_Z 0;
     gate_target_state := false |}.

Definition initial_sensor_states : dict :=
  [ ("PRESENCE_FRONT", false);
    ("PRESENCE_MIDDLE", false);
    ("PRESENCE_BACK", false);
    ("GATE_SAFETY_A", false);
    ("GATE_SAFETY_B", false);
    ("GATE_MOVING_A", false);
    ("GATE_MOVING_B", false) ].

Definition initial_gate_requests : gmap string bool :=
  <["GATE_REQUEST_A" := false]> (<["GATE_REQUEST_B" := false]> ∅).

Definition initial : airlock :=
  {| rover_x := of_Z 50;
     gate_a := initial_gate;
     gate_b := initial_gate;
     sensor_states := initial_sensor_states;
     gate_requests := initial_gate_requests |}.

(** *** [update_sensors] *)

Definition rover_left (x : F) : F := x - rover_width / of_Z 2.
Definition rover_right (x : F) : F := x + rover_width / of_Z 2.

Definition front_sensor_x : F := start_x + front_zone_width / of_Z 2.
Definition middle_sensor_x : F :=
  start_x + front_zone_width + middle_zone_width / of_Z 2.
Definition back_sensor_x : F :=
  start_x + front_zone_width + middle_zone_width + back_zone_width / of_Z 2.

(** [rover_left <= sensor_x <= rover_right], a chained comparison. *)
Definition presence (sensor_x x : F) : bool :=
  (rover_left x <=? sensor_x) && (sensor_x <=? rover_right x).

Definition safety_zone_width : F := of_Z 60.
Definition gate_a_pos : F := start_x + gate_a_x.
Definition gate_b_pos : F := start_x + gate_b_x.

(** The condition of the two [if]s on the safety zones. *)
Definition gate_safety (gate_pos x : F) : bool :=
  (rover_right x >? gate_pos - safety_zone_width / of_Z 2)
  && (rover_left x <? gate_pos + safety_zone_width / of_Z 2).

Definition update_sensors (s : airlock) : airlock :=
  let x := rover_x s in
  let ss := sensor_states s in
  let ss := dict_set "PRESENCE_FRONT" (presence front_sensor_x x) ss in
  let ss := dict_set "PRESENCE_MIDDLE" (presence middle_sensor_x x) ss in
  let ss := dict_set "PRESENCE_BACK" (presence back_sensor_x x) ss in
  let ss :=
    if gate_safety gate_a_pos x then dict_set "GATE_SAFETY_A" true ss
    else dict_set "GATE_SAFETY_A" false ss in
  let ss :=
    if gate_safety gate_b_pos x then dict_set "GATE_SAFETY_B" true ss
    else dict_set "GATE_SAFETY_B" false ss in
  {| rover_x := x;
     gate_a := gate_a s;
     gate_b := gate_b s;
     sensor_states := ss;
     gate_requests := gate_requests s |}.

(** The rover is moved by [on_canvas_drag] (to [event.x - drag_start_x],
    while [self.rover_dragging] holds; otherwise the handler does nothing) and
    by [on_key_press] (one pixel left or right); both assign [self.rover_x]
    and then call [update_sensors]. *)
Definition on_canvas_drag (new_x : F) (s : airlock) : airlock :=
  update_sensors
    {| rover_x := new_x;
       gate_a := gate_a s;
       gate_b := gate_b s;
       sensor_states := sensor_states s;
       gate_requests := gate_requests s |}.

Inductive keysym := Left | Right.

Definition on_key_press (k : keysym) (s : airlock) : airlock :=
  let step := of_Z 1 in
  let new_x :=
    match k with
    | Left => rover_x s - step
    | Right => rover_x s + step
    end in
  on_canvas_drag new_x s.

(** *** [process_gate_requests]

    The blocks for gate A (lines 863-916) and gate B (lines 919-972) are the
    same text up to the letter of the gate; [process_gate_request] is that
    block, applied to the gate's attributes and to [self.sensor_states], of
    which it assigns the gate's [GATE_MOVING_] entry [moving_key]. *)
Definition process_gate_request (moving_key : string) (request : bool)
    (g : gate) (ss : dict) : gate * dict :=
  if request then
    (* Request = 1: OPEN *)
    if negb (gate_moving g) then
      if negb (gate_open g) then
        ({| gate_open := gate_open g;
            gate_moving := true;
            gate_animation_progress := gate_animation_progress g;
            gate_animation_time :=
              gate_animation_progress g * gate_animation_duration;
            gate_target_state := true |},
         dict_set moving_key true ss)
      else (g, ss)
    else
      if negb (gate_target_state g) then
        (* currently closing, switch to opening *)
        ({| gate_open := gate_open g;
            gate_moving := gate_moving g;
            gate_animation_progress := gate_animation_progress g;
            gate_animation_time :=
              gate_animation_progress g * gate_animation_duration;
            gate_target_state := true |},
         ss)
      else (g, ss)
  else
    (* Request = 0: CLOSE *)
    if negb (gate_moving g) then
      if gate_open g then
        ({| gate_open := gate_open g;
            gate_moving := true;
            gate_animation_progress := gate_animation_progress g;
            gate_animation_time :=
              (of_Z 1 - gate_animation_progress g) * gate_animation_duration;
            gate_target_state := false |},
         dict_set moving_key true ss)
      else (g, ss)
    else
      if gate_target_state g then
        (* currently opening, switch to closing *)
        ({| gate_open := gate_open g;
            gate_moving := gate_moving g;
            gate_animation_progress := gate_animation_progress g;
            gate_animation_time :=
              (of_Z 1 - gate_animation_progress g) * gate_animation_duration;
            gate_target_state := false |},
         ss)
      else (g, ss).

(** The method reads both requests (in its first two [print]s) before it
    assigns anything; a missing key would be a [KeyError]. *)
Definition process_gate_requests (s : airlock) : outcome airlock :=
  match gate_requests s !! "GATE_REQUEST_A",
        gate_requests s !! "GATE_REQUEST_B" with
  | Some request_a, Some request_b =>
      let '(ga, ss) :=
        process_gate_request "GATE_MOVING_A" request_a
          (gate_a s) (sensor_states s) in
      let '(gb, ss) :=
        process_gate_request "GATE_MOVING_B" request_b (gate_b s) ss in
      Returns
        {| rover_x := rover_x s;
           gate_a := ga;
           gate_b := gb;
           sensor_states := ss;
           gate_requests := gate_requests s |}
  | _, _ => Raises KeyError s
  end.

(** *** [animate_gates]

    Again one block per gate (lines 980-1040 and 1043-1106), the same up to
    the letter of the gate.  The reading of the safety sensor is commented
    out in the source and [safety_triggered] is assigned [False]; the model
    keeps both the assignment and the test on it, so the block never reads
    the gate's [GATE_SAFETY_] entry of [self.sensor_states]. *)
Definition animate_gate (moving_key : string) (g : gate) (ss : dict)
    : gate * dict :=
  if gate_moving g then
    let safety_triggered := false in
    if gate_target_state g then
      (* opening *)
      let animation_time := gate_animation_time g + dt in
      let progress := py_min (animation_time / gate_animation_duration) (of_Z 1) in
      if progress >=? of_Z 1 then
        ({| gate_open := true;
            gate_moving := false;
            gate_animation_progress := of_Z 1;
            gate_animation_time := of_Z 0;
            gate_target_state := gate_target_state g |},
         dict_set moving_key false ss)
      else
        ({| gate_open := gate_open g;
            gate_moving := gate_moving g;
            gate_animation_progress := progress;
            gate_animation_time := animation_time;
            gate_target_state := gate_target_state g |},
         ss)
    else
      (* closing *)
      if negb safety_triggered then
        let animation_time := gate_animation_time g + dt in
        let progress := py_min (animation_time / gate_animation_duration) (of_Z 1) in
        if progress >=? of_Z 1 then
          ({| gate_open := false;
              gate_moving := false;
              gate_animation_progress := of_Z 0;
              gate_animation_time := of_Z 0;
              gate_target_state := gate_target_state g |},
           dict_set moving_key false ss)
        else
          ({| gate_open := gate_open g;
              gate_moving := gate_moving g;
              gate_animation_progress := of_Z 1 - progress;
              gate_animation_time := animation_time;
              gate_target_state := gate_target_state g |},
           ss)
      else (g, ss)
  else (g, ss).

Definition animate_gates (s : airlock) : airlock :=
  let '(ga, ss) := animate_gate "GATE_MOVING_A" (gate_a s) (sensor_states s) in
  let '(gb, ss) := animate_gate "GATE_MOVING_B" (gate_b s) ss in
  {| rover_x := rover_x s;
     gate_a := ga;
     gate_b := gb;
     sensor_states := ss;
     gate_requests := gate_requests s |}.

(** *** [send_data] and [read_arduino_data] on the state *)

(** [send_data] writes the message to the port when there is one; [None]
    is the early [return]. *)
Definition send_data (connected : bool) (s : airlock) : option string :=
  if negb connected then None
  else Some (encode (sensor_states s)
               (gate_moving (gate_a s)) (gate_moving (gate_b s))).

Definition with_requests (s : airlock) (requests : gmap string bool) : airlock :=
  {| rover_x := rover_x s;
     gate_a := gate_a s;
     gate_b := gate_b s;
     sensor_states := sensor_states s;
     gate_requests := requests |}.

(** What the method does with a line it has read ([line] is the text read
    from the port, decoded and stripped).  It first prints [line[-1]], then
    tests the delimiters; the requests assigned before an exception stay
    assigned, and [process_gate_requests] is then not reached. *)
Definition read_arduino_data (line : string) (s : airlock) : outcome airlock :=
  match last_char line with
  | None => Raises IndexError s
  | Some _ =>
      if startswith "<" line && endswith ">" line then
        match decode_pairs line (gate_requests s) with
        | Raises e requests => Raises e (with_requests s requests)
        | Returns requests => process_gate_requests (with_requests s requests)
        end
      else Returns s
  end.

(** *** The gate's phase

    [status_text] of [draw_gates]: the label shown for a gate. *)
Inductive phase := SEALED | OPENING | OPEN | CLOSING.

Definition status_text (g : gate) : phase :=
  if gate_moving g && gate_target_state g then OPENING
  else if gate_moving g && negb (gate_target_state g) then CLOSING
  else if gate_open g then OPEN else SEALED.

(** *** Runs

    The threads of the program call [animate_gates] (every 100 ms),
    [read_arduino_data] (on each line received) and the two rover handlers;
    a run is a sequence of such calls, each taken as a whole.  A line that
    raises leaves the state it had reached. *)
Inductive event :=
| Tick
| Line (line : string)
| Drag (new_x : F)
| Key (k : keysym).

Definition step (s : airlock) (e : event) : airlock :=
  match e with
  | Tick => animate_gates s
  | Line line => state_of (read_arduino_data line s)
  | Drag new_x => on_canvas_drag new_x s
  | Key k => on_key_press k s
  end.

Definition run (s : airlock) (events : list event) : airlock :=
  fold_left step events s.

Inductive reachable : airlock -> Prop :=
| reachable_initial : reachable initial
| reachable_step (s : airlock) (e : event) :
    reachable s -> reachable (step s e).

(** The two gates, to state a property once for both. *)
Inductive gate_name := GateA | GateB.

Definition gate_of (n : gate_name) (s : airlock) : gate :=
  match n with GateA => gate_a s | GateB => gate_b s end.

Definition moving_key (n : gate_name) : string :=
  match n with GateA => "GATE_MOVING_A" | GateB => "GATE_MOVING_B" end.

Definition request_key (n : gate_name) : string :=
  match n with GateA => "GATE_REQUEST_A" | GateB => "GATE_REQUEST_B" end.

(** *** Two runs of the specification's scenarios *)

(** Gate A is asked to open, then the animation ticks [n] times. *)
Definition open_cycle (n : nat) : list event :=
  Line "<GATE_REQUEST_A:1>" :: repeat Tick n.

(** Gate A is opened, the rover is put on the line of gate A, and gate A is
    asked to close. *)
Definition close_over_rover : list event :=
  (open_cycle 30 ++ [Drag gate_a_pos; Line "<GATE_REQUEST_A:0>"])%list.

(** What the open cycle is expected to give: the request is taken without
    exception and starts the opening; after 29 ticks gate A is still opening,
    after 30 it is open with progress 1 and its moving flag cleared, and one
    more tick changes nothing in the state. *)
Definition open_cycle_completes : Prop :=
  let s30 := run initial (open_cycle 30) in
  status_text (gate_a initial) = SEALED
  /\ raised (read_arduino_data "<GATE_REQUEST_A:1>" initial) = None
  /\ status_text (gate_a (run initial (open_cycle 0))) = OPENING
  /\ status_text (gate_a (run initial (open_cycle 29))) = OPENING
  /\ gate_a s30
     = {| gate_open := true;
          gate_moving := false;
          gate_animation_progress := of_Z 1;
          gate_animation_time := of_Z 0;
          gate_target_state := true |}
  /\ status_text (gate_a s30) = OPEN
  /\ animate_gates s30 = s30.

(** What the tick does to a gate that closes over the rover: the safety
    sensor of gate A is tripped, and the elapsed time still grows and the
    progress still falls. *)
Definition closing_advances_over_rover : Prop :=
  let s := run initial close_over_rover in
  let g := gate_a s in
  let g' := gate_a (animate_gates s) in
  dict_get "GATE_SAFETY_A" (sensor_states s) = Some true
  /\ status_text g = CLOSING
  /\ (gate_animation_time g <? gate_animation_time g') = true
  /\ (gate_animation_progress g' <? gate_animation_progress g) = true.

(** The reversal scenario: gate A is asked to open, ticks 12 times (to
    progress 0.4), is asked to close, and ticks once.  [reversal_jump] is
    the fall of the progress over the request and that tick. *)
Definition reversal_run : list event :=
  (open_cycle 12 ++ [Line "<GATE_REQUEST_A:0>"; Tick])%list.

Definition reversal_jump : F :=
  gate_animation_progress (gate_a (run initial (open_cycle 12)))
  - gate_animation_progress (gate_a (run initial reversal_run)).

End Model.

(** ** Vocabulary of the statements, in exact arithmetic *)

Section Vocabulary.
Local Open Scope Q_scope.

(** The three zones lie side by side from [start_x] on; a zone's sensor
    line is drawn at its horizontal centre. *)
Definition zone_center (zone_left zone_width : Q) : Q :=
  (zone_left + (zone_left + zone_width)) / 2.

Definition front_zone_left : Q := start_x.
Definition middle_zone_left : Q := start_x + front_zone_width.
Definition back_zone_left : Q := start_x + front_zone_width + middle_zone_width.

(** The entry of a presence sensor, read as the closed-interval test. *)
Definition presence_entry (ss : dict) (name : string) (x center : Q) : Prop :=
  exists b : bool,
    dict_get name ss = Some b
    /\ (b = true <-> x - rover_width / 2 <= center /\ center <= x + rover_width / 2).

(** The entry of a safety sensor, read as the strict overlap test. *)
Definition safety_entry (ss : dict) (name : string) (x gate_pos : Q) : Prop :=
  exists b : bool,
    dict_get name ss = Some b
    /\ (b = true <-> x + rover_width / 2 > gate_pos - 30
                      /\ x - rover_width / 2 < gate_pos + 30).


(** The invariant of one gate: the progress is within [0, 1], the elapsed
    animation time is not negative, and a gate at rest is fully open or
    fully sealed according to its [open] flag, with no time elapsed. *)
Definition gate_inv (g : @gate Q) : Prop :=
  (0 <= gate_animation_progress g /\ gate_animation_progress g <= 1)
  /\ 0 <= gate_animation_time g
  /\ (gate_moving g = false ->
      gate_animation_progress g = (if gate_open g then 1 else 0)
      /\ gate_animation_time g = 0).

(** The [GATE_MOVING_] entry of the dictionary mirrors the gate's flag. *)
Definition mirrored (n : gate_name) (s : @airlock Q) : Prop :=
  dict_get (moving_key n) (sensor_states s) = Some (gate_moving (gate_of n s)).

(** The keys of [self.sensor_states], in the order of [__init__]. *)
Definition sensor_keys : list string :=
  [ "PRESENCE_FRONT"; "PRESENCE_MIDDLE"; "PRESENCE_BACK";
    "GATE_SAFETY_A"; "GATE_SAFETY_B"; "GATE_MOVING_A"; "GATE_MOVING_B" ].

(** The keys of [self.gate_requests]. *)
Definition request_keys : gset string :=
  {[ "GATE_REQUEST_A"; "GATE_REQUEST_B" ]}.

(** What holds of every state of a run. *)
Definition airlock_inv (s : @airlock Q) : Prop :=
  gate_inv (gate_a s) /\ gate_inv (gate_b s)
  /\ mirrored GateA s /\ mirrored GateB s
  /\ dict_keys (sensor_states s) = sensor_keys
  /\ dom (gate_requests s) = request_keys.


(** The line by which the controller asks gate [n] to open ([true]) or to
    close ([false]). *)
Definition request_line (n : gate_name) (open : bool) : string :=
  "<" +:+ request_key n +:+ ":" +:+ bit open +:+ ">".

(** A snapshot of the seven sensors, as [update_sensors] and the gate
    blocks keep it. *)
Definition snapshot (pf pm pb sa sb ma mb : bool) : dict :=
  [ ("PRESENCE_FRONT", pf);
    ("PRESENCE_MIDDLE", pm);
    ("PRESENCE_BACK", pb);
    ("GATE_SAFETY_A", sa);
    ("GATE_SAFETY_B", sb);
    ("GATE_MOVING_A", ma);
    ("GATE_MOVING_B", mb) ].

(** The outbound telegram as the specification words it: the seven pairs
    [KEY:V] in the fixed order, joined by commas, between the delimiters. *)
Definition telegram (pf pm pb sa sb ga gb : bool) : string :=
  "<" +:+ join ","
            [ "PRESENCE_FRONT:" +:+ bit pf;
              "PRESENCE_MIDDLE:" +:+ bit pm;
              "PRESENCE_BACK:" +:+ bit pb;
              "GATE_SAFETY_A:" +:+ bit sa;
              "GATE_SAFETY_B:" +:+ bit sb;
              "GATE_MOVING_A:" +:+ bit ga;
              "GATE_MOVING_B:" +:+ bit gb ]
      +:+ ">".

(** A key that can travel in a telegram: it holds neither separator. *)
Definition plain_key (k : string) : Prop :=
  contains "," k = false /\ contains ":" k = false.

(** The pairs [(name, state)] that [send_data] puts in the message. *)
Definition sent_items (ss : dict) (ga gb : bool) : dict :=
  (List.filter (fun '(name, _) =>
             negb (String.eqb name "GATE_MOVING_A" || String.eqb name "GATE_MOVING_B"))
          ss
   ++ [("GATE_MOVING_A", ga); ("GATE_MOVING_B", gb)])%list.

Definition format_item (item : string * bool) : string :=
  fst item +:+ ":" +:+ bit (snd item).

(** The assignment that one well-formed pair makes to [self.gate_requests]. *)
Definition assign_known (requests : gmap string bool) (item : string * bool)
    : gmap string bool :=
  match requests !! fst item with
  | Some _ => <[fst item := snd item]> requests
  | None => requests
  end.

End Vocabulary.

(** ** More of the program *)

(** *** [send_command]: the delimiters of a typed command

    [command] is the text of the entry, stripped. *)
Definition frame_command (command : string) : string :=
  let command :=
    if negb (startswith "<" command) then "<" +:+ command else command in
  let command :=
    if negb (endswith ">" command) then command +:+ ">" else command in
  command.

(** What [send_command] writes to the port; [None] where it returns
    before writing (an empty command, or no connection). *)
Definition send_command (connected : bool) (command : string) : option string :=
  match command with
  | EmptyString => None
  | _ => if negb connected then None else Some (frame_command command)
  end.

Section MoreModel.
Context {F : Type} `{PyNum F}.
Local Open Scope num_scope.

(** *** [ease_in_out_cubic] and the gate rectangle of [draw_gates] *)

(** [pow(x, 3)], as a product. *)
Definition cube (x : F) : F := x * x * x.

Definition ease_in_out_cubic (t : F) : F :=
  if t <? lit 1 2 then of_Z 4 * t * t * t
  else of_Z 1 - cube (of_Z (-2) * t + of_Z 2) / of_Z 2.

Definition start_y : F := of_Z 50.
Definition airlock_height : F := of_Z 175.

(** The top and the height of the rectangle drawn for a gate: the gate
    slides down as it opens, and at least 5 pixels of it stay visible. *)
Definition gate_rectangle (g : gate) : F * F :=
  let eased_progress :=
    if gate_moving g then ease_in_out_cubic (gate_animation_progress g)
    else gate_animation_progress g in
  let gate_y := start_y + airlock_height * eased_progress in
  let gate_height := airlock_height * (of_Z 1 - eased_progress) in
  let gate_height := if gate_height <? of_Z 5 then of_Z 5 else gate_height in
  (gate_y, gate_height).

(** *** Particles *)

(** A particle of [create_gate_particles]: a dictionary with these seven
    keys. *)
Record particle := mk_particle {
  particle_x : F;
  particle_y : F;
  particle_vx : F;
  particle_vy : F;
  particle_life : F;
  particle_size : F;
  particle_color : string
}.

(** The five numbers that [create_gate_particles] draws with
    [random.uniform] for a particle. *)
Record draws := mk_draws {
  draw_x : F;      (* uniform(-5, 5) *)
  draw_y : F;      (* uniform(60, airlock_height - 60) *)
  draw_vx : F;     (* uniform(-0.5, 0.5) *)
  draw_vy : F;     (* uniform(-1.0, -0.3) *)
  draw_size : F    (* uniform(1.5, 2.5) *)
}.

(** [particle_count] is 1: one particle per call. *)
Definition create_gate_particles (gate_x : F) (gate_type : string) (r : draws)
    : list particle :=
  let color_base :=
    if String.eqb gate_type "opening" || String.eqb gate_type "opened"
    then "#4CAF50"
    else if String.eqb gate_type "closing" then "#FF6B35"
    else "#FFB300" in
  [ {| particle_x := start_x + gate_x + draw_x r;
       particle_y := start_y + draw_y r;
       particle_vx := draw_vx r;
       particle_vy := draw_vy r;
       particle_life := of_Z 1;
       particle_size := draw_size r;
       particle_color := color_base |} ].

(** The body of the loop of [update_particles] on one particle. *)
Definition update_particle (p : particle) : particle :=
  {| particle_x := particle_x p + particle_vx p;
     particle_y := particle_y p + particle_vy p;
     particle_vx := particle_vx p;
     particle_vy := particle_vy p;
     particle_life := particle_life p - lit 15 1000;
     particle_size := particle_size p * lit 998 1000;
     particle_color := particle_color p |}.

Fixpoint update_particles (particles : list particle) : list particle :=
  match particles with
  | [] => []
  | p :: rest =>
      let p' := update_particle p in
      if (particle_life p' >? of_Z 0) && (particle_size p' >? lit 9 10)
      then p' :: update_particles rest
      else update_particles rest
  end.

(** *** The mouse: [on_canvas_click], [on_canvas_drag], [on_canvas_release]

    [self.drag_start_x] does not exist until a click on the rover assigns
    it: [None] is the missing attribute. *)
Record pointer := mk_pointer {
  rover_dragging : bool;
  drag_start_x : option F
}.

Definition initial_pointer : pointer :=
  {| rover_dragging := false; drag_start_x := None |}.

Definition rover_height : F := of_Z 35.

(** [self.airlock_height // 2 + 50], on integers. *)
Definition rover_y : F := of_Z (175 / 2 + 50).

Definition on_canvas_click (event_x event_y : F) (p : pointer) (s : airlock)
    : pointer :=
  let rover_left := rover_x s - rover_width / of_Z 2 in
  let rover_right := rover_x s + rover_width / of_Z 2 in
  let rover_top := rover_y - rover_height / of_Z 2 in
  let rover_bottom := rover_y + rover_height / of_Z 2 in
  if (rover_left <=? event_x) && (event_x <=? rover_right)
     && ((rover_top <=? event_y) && (event_y <=? rover_bottom))
  then {| rover_dragging := true; drag_start_x := Some (event_x - rover_x s) |}
  else p.

(** The whole handler of a mouse motion; [None] is the [AttributeError] of
    a read of [self.drag_start_x] before it exists. *)
Definition on_canvas_motion (event_x : F) (p : pointer) (s : airlock)
    : option airlock :=
  if rover_dragging p then
    match drag_start_x p with
    | Some start => Some (on_canvas_drag (event_x - start) s)
    | None => None
    end
  else Some s.

Definition on_canvas_release (p : pointer) : pointer :=
  {| rover_dragging := false; drag_start_x := drag_start_x p |}.

(** The mouse events, and the pointers that sequences of them reach. *)
Inductive mouse :=
| Click (event_x event_y : F)
| Motion (event_x : F)
| Release.

Definition mouse_step (ps : pointer * airlock) (e : mouse) : pointer * airlock :=
  let '(p, s) := ps in
  match e with
  | Click event_x event_y => (on_canvas_click event_x event_y p s, s)
  | Motion event_x =>
      match on_canvas_motion event_x p s with
      | Some s' => (p, s')
      | None => (p, s)
      end
  | Release => (on_canvas_release p, s)
  end.

End MoreModel.

(** ** Vocabulary of the further properties *)

Section FurtherVocabulary.
Local Open Scope Q_scope.

(** A sensor entry that is on. *)
Definition active (ss : dict) (name : string) : Prop :=
  dict_get name ss = Some true.

(** The five entries that [update_sensors] assigns hold what the rover
    position gives. *)
Definition sensors_fresh (s : @airlock Q) : Prop :=
  let ss := sensor_states s in
  let x := rover_x s in
  dict_get "PRESENCE_FRONT" ss = Some (presence front_sensor_x x)
  /\ dict_get "PRESENCE_MIDDLE" ss = Some (presence middle_sensor_x x)
  /\ dict_get "PRESENCE_BACK" ss = Some (presence back_sensor_x x)
  /\ dict_get "GATE_SAFETY_A" ss = Some (gate_safety gate_a_pos x)
  /\ dict_get "GATE_SAFETY_B" ss = Some (gate_safety gate_b_pos x).

(** The number of colons of a segment. *)
Fixpoint colons (s : string) : nat :=
  match s with
  | EmptyString => O
  | String c r => if Ascii.eqb c ":" then S (colons r) else colons r
  end.

(** What the parsing loop makes of the segments, whatever the requests
    are: the assignments [(name, value == '1')] of the segments with one
    colon, in order, up to the first segment with more than one colon, at
    which the loop raises. *)
Fixpoint parsed_items (pairs : list string) : list (string * bool) * option exn :=
  match pairs with
  | [] => ([], None)
  | item :: rest =>
      if contains ":" item then
        match split ":" item with
        | [name; value] =>
            let '(items, e) := parsed_items rest in
            ((name, String.eqb value "1") :: items, e)
        | _ => ([], Some ValueError)
        end
      else parsed_items rest
  end.

(** The last value that a list of assignments gives to a key. *)
Fixpoint last_assigned (k : string) (items : list (string * bool)) : option bool :=
  match items with
  | [] => None
  | (name, v) :: rest =>
      match last_assigned k rest with
      | Some w => Some w
      | None => if String.eqb name k then Some v else None
      end
  end.

(** The exception that a line ends in, read off the line alone. *)
Definition expected_exception (line : string) : option exn :=
  match line with
  | EmptyString => Some IndexError
  | _ =>
      if startswith "<" line && endswith ">" line
         && existsb (fun item => Nat.leb 2 (colons item))
              (split "," (strip_delimiters line))
      then Some ValueError
      else None
  end.

(** One tick on one gate: the gate that the animation block leaves. *)
Definition tick_gate (g : @gate Q) : @gate Q :=
  fst (animate_gate EmptyString g []).

(** The clock of a moving gate agrees with its progress: while opening the
    progress is [elapsed / duration], while closing it is
    [1 - elapsed / duration]. *)
Definition coherent (g : @gate Q) : Prop :=
  gate_moving g = true ->
  if gate_target_state g
  then gate_animation_progress g == gate_animation_time g / gate_animation_duration
  else gate_animation_progress g
       == 1 - gate_animation_time g / gate_animation_duration.

End FurtherVocabulary.

(** ** The bytes of the port: [self.ser.readline().decode().strip()]

    [readline] returns [bytes]; a Rocq [string] is a sequence of bytes.
    [decode()] is the strict UTF-8 decoder, which raises
    [UnicodeDecodeError] on a sequence that is not well formed; a Python
    [str] is kept here as the list of its characters, each one by its UTF-8
    bytes, so that the text of a [str] is the string of its bytes (the
    methods that [read_arduino_data] calls on the line look for ASCII
    characters only, which in UTF-8 occur as themselves and nowhere else). *)

Definition byte_in (lo hi : N) (b : ascii) : bool :=
  (lo <=? N_of_ascii b)%N && (N_of_ascii b <=? hi)%N.

(** A continuation byte, [10xxxxxx]. *)
Definition continuation (b : ascii) : bool := byte_in 128 191 b.

(** The first two bytes of a well-formed sequence of three bytes: no
    overlong form ([E0] needs [A0..BF]) and no surrogate ([ED] needs
    [80..9F]). *)
Definition lead_of_three (b0 b1 : ascii) : bool :=
  byte_in 224 224 b0 && byte_in 160 191 b1
  || byte_in 225 236 b0 && continuation b1
  || byte_in 237 237 b0 && byte_in 128 159 b1
  || byte_in 238 239 b0 && continuation b1.

(** The first two bytes of a well-formed sequence of four bytes: no
    overlong form ([F0] needs [90..BF]) and nothing above U+10FFFF ([F4]
    needs [80..8F]). *)
Definition lead_of_four (b0 b1 : ascii) : bool :=
  byte_in 240 240 b0 && byte_in 144 191 b1
  || byte_in 241 243 b0 && continuation b1
  || byte_in 244 244 b0 && byte_in 128 143 b1.

(** [raw.decode()]: the characters of the text, or [None] for the
    [UnicodeDecodeError] of an ill-formed or truncated sequence. *)
Fixpoint decode (raw : string) : option (list string) :=
  match raw with
  | EmptyString => Some []
  | String b0 r0 =>
      if byte_in 0 127 b0 then
        option_map (cons (String b0 EmptyString)) (decode r0)
      else
        match r0 with
        | EmptyString => None
        | String b1 r1 =>
            if byte_in 194 223 b0 && continuation b1 then
              option_map (cons (String b0 (String b1 EmptyString))) (decode r1)
            else
              match r1 with
              | EmptyString => None
              | String b2 r2 =>
                  if lead_of_three b0 b1 && continuation b2 then
                    option_map
                      (cons (String b0 (String b1 (String b2 EmptyString))))
                      (decode r2)
                  else
                    match r2 with
                    | EmptyString => None
                    | String b3 r3 =>
                        if lead_of_four b0 b1 && continuation b2
                           && continuation b3 then
                          option_map
                            (cons (String b0 (String b1 (String b2
                                     (String b3 EmptyString)))))
                            (decode r3)
                        else None
                    end
              end
        end
  end.

(** The code point of a character, from its UTF-8 bytes. *)
Definition code_point (c : string) : N :=
  let low (bits : N) (b : ascii) := N.land (N_of_ascii b) (N.ones bits) in
  match c with
  | String b0 EmptyString => N_of_ascii b0
  | String b0 (String b1 EmptyString) =>
      N.lor (N.shiftl (low 5 b0) 6) (low 6 b1)
  | String b0 (String b1 (String b2 EmptyString)) =>
      N.lor (N.shiftl (low 4 b0) 12) (N.lor (N.shiftl (low 6 b1) 6) (low 6 b2))
  | String b0 (String b1 (String b2 (String b3 EmptyString))) =>
      N.lor (N.shiftl (low 3 b0) 18)
        (N.lor (N.shiftl (low 6 b1) 12)
           (N.lor (N.shiftl (low 6 b2) 6) (low 6 b3)))
  | _ => 0
  end%N.

(** [c.isspace()] for one character: the white space that [str.strip()]
    removes (tab to carriage return, the separators U+001C to U+001F, the
    space, U+0085, U+00A0, U+1680, U+2000 to U+200A, U+2028, U+2029, U+202F,
    U+205F and U+3000). *)
Definition isspace (c : string) : bool :=
  let cp := code_point c in
  ((9 <=? cp) && (cp <=? 13) || (28 <=? cp) && (cp <=? 32)
   || (cp =? 133) || (cp =? 160) || (cp =? 5760)
   || (8192 <=? cp) && (cp <=? 8202)
   || (cp =? 8232) || (cp =? 8233) || (cp =? 8239) || (cp =? 8287)
   || (cp =? 12288))%N.

Fixpoint lstrip (chars : list string) : list string :=
  match chars with
  | [] => []
  | c :: rest => if isspace c then lstrip rest else chars
  end.

(** [text.strip()]. *)
Definition strip (chars : list string) : list string :=
  rev (lstrip (rev (lstrip chars))).

(** The bytes of a text. *)
Definition text (chars : list string) : string := String.concat EmptyString chars.

(** [raw.decode().strip()], for the bytes [raw] that [readline] returned. *)
Definition decode_strip (raw : string) : option string :=
  option_map (fun chars => text (strip chars)) (decode raw).

(** The exception that the bytes of a line end in, read off the bytes
    alone. *)
Definition expected_exception_of_bytes (raw : string) : option exn :=
  match decode_strip raw with
  | None => Some UnicodeDecodeError
  | Some line => expected_exception line
  end.

(** ASCII white space only, as in a blank line ending in CR LF. *)
Definition blank (raw : string) : Prop :=
  Forall (fun b => byte_in 9 13 b || byte_in 28 32 b = true)
    (list_ascii_of_string raw).

Section Port.
Context {F : Type} `{PyNum F}.

(** [read_arduino_data] from the bytes on: what the method does once
    [readline] has returned [raw] (the serial port is open and has bytes
    waiting).  Only [serial.SerialException] is caught, so the
    [UnicodeDecodeError] of [decode] leaves the method. *)
Definition read_arduino_data_of_bytes (raw : string) (s : @airlock F)
    : outcome airlock :=
  match decode_strip raw with
  | None => Raises UnicodeDecodeError s
  | Some line => read_arduino_data line s
  end.

End Port.

(** ** The doubles of a run, as exact numbers *)







(** * Properties *)

(** ** Dictionaries *)

Lemma dict_get_set_eq (k : string) (v : bool) (d : dict) :
  dict_get k (dict_set k v d) = Some v.
Proof.
  induction d as [|[k' v'] r IH]; simpl.
  - now rewrite String.eqb_refl.
  - destruct (String.eqb k' k) eqn:E; simpl; rewrite E; [reflexivity | exact IH].
Qed.

Lemma dict_get_set_ne (k k' : string) (v : bool) (d : dict) :
  k <> k' -> dict_get k (dict_set k' v d) = dict_get k d.
Proof.
  intros Hne. induction d as [|[k0 v0] r IH]; simpl.
  - destruct (String.eqb k' k) eqn:E; [|reflexivity].
    apply String.eqb_eq in E. congruence.
  - destruct (String.eqb k0 k') eqn:E; simpl.
    + apply String.eqb_eq in E. subst k0.
      destruct (String.eqb k' k) eqn:E'; [|reflexivity].
      apply String.eqb_eq in E'. congruence.
    + now rewrite IH.
Qed.

Lemma dict_keys_set (k : string) (v : bool) (d : dict) :
  In k (dict_keys d) -> dict_keys (dict_set k v d) = dict_keys d.
Proof.
  unfold dict_keys. induction d as [|[k' v'] r IH]; simpl; [tauto|].
  intros [->|Hin].
  - now rewrite String.eqb_refl.
  - destruct (String.eqb k' k); simpl; [reflexivity | now rewrite IH].
Qed.

Lemma dict_keys_set_in (k : string) (v : bool) (d : dict) (ks : list string) :
  dict_keys d = ks -> In k ks -> dict_keys (dict_set k v d) = ks.
Proof. intros <- Hin. now apply dict_keys_set. Qed.

(** ** Exact arithmetic *)

Section Exact.
Local Open Scope Q_scope.

Lemma Qle_bool_false (a b : Q) : Qle_bool a b = false <-> b < a.
Proof.
  rewrite <- not_true_iff_false, Qle_bool_iff. split; intros Hab.
  - now apply Qnot_le_lt.
  - now apply Qlt_not_le.
Qed.

(** In [Q] the comparisons of the interface are the order of [Q]. *)
Lemma fleb_le (a b : Q) : fleb a b = true <-> a <= b.
Proof. apply Qle_bool_iff. Qed.

Lemma fltb_lt (a b : Q) : fltb a b = true <-> a < b.
Proof. simpl. rewrite negb_true_iff. apply Qle_bool_false. Qed.

Lemma fleb_gt (a b : Q) : fleb a b = false <-> b < a.
Proof. apply Qle_bool_false. Qed.

Lemma fltb_ge (a b : Q) : fltb a b = false <-> b <= a.
Proof. simpl. rewrite negb_false_iff. apply Qle_bool_iff. Qed.

End Exact.

(** Unfolds the constants of the model and the interface at [Q], down to
    sums and products of numerals. *)
Ltac exact_arith :=
  cbv [rover_left rover_right front_sensor_x middle_sensor_x back_sensor_x
       gate_a_pos gate_b_pos gate_a_x gate_b_x safety_zone_width
       front_zone_width middle_zone_width back_zone_width rover_width
       start_x scale gate_animation_duration dt lit
       of_Z fadd fsub fmul fdiv exact inject_Z Qdiv Qinv Qnum Qden] in *.

(** Turns the boolean comparisons in the context into order facts. *)
Ltac exact_order :=
  repeat match goal with
  | Hc : fleb _ _ = true |- _ => apply fleb_le in Hc
  | Hc : fleb _ _ = false |- _ => apply fleb_gt in Hc
  | Hc : fltb _ _ = true |- _ => apply fltb_lt in Hc
  | Hc : fltb _ _ = false |- _ => apply fltb_ge in Hc
  end.

(** ** Sensors derived from the rover position *)

Section Sensors.
Local Open Scope Q_scope.

(** The rover's edges and the sensor lines, in numerals. *)
Lemma rover_half_width : @rover_width Q _ / 2 == 638 / 10.
Proof. reflexivity. Qed.

Lemma sensor_lines :
  @front_sensor_x Q _ == 202 /\ @middle_sensor_x Q _ == 444
  /\ @back_sensor_x Q _ == 686.
Proof. repeat split; reflexivity. Qed.

Lemma presence_spec (sensor_x x : Q) :
  presence sensor_x x = true
  <-> x - rover_width / 2 <= sensor_x /\ sensor_x <= x + rover_width / 2.
Proof.
  unfold presence. rewrite andb_true_iff, !fleb_le. reflexivity.
Qed.

Lemma gate_safety_spec (gate_pos x : Q) :
  gate_safety gate_pos x = true
  <-> x + rover_width / 2 > gate_pos - 60 / 2
      /\ x - rover_width / 2 < gate_pos + 60 / 2.
Proof.
  unfold gate_safety. rewrite andb_true_iff, !fltb_lt. reflexivity.
Qed.

(** What [update_sensors] leaves in the five entries it assigns. *)
Lemma update_sensors_entries (s : @airlock Q) :
  let ss := sensor_states (update_sensors s) in
  let x := rover_x s in
  dict_get "PRESENCE_FRONT" ss = Some (presence front_sensor_x x)
  /\ dict_get "PRESENCE_MIDDLE" ss = Some (presence middle_sensor_x x)
  /\ dict_get "PRESENCE_BACK" ss = Some (presence back_sensor_x x)
  /\ dict_get "GATE_SAFETY_A" ss = Some (gate_safety gate_a_pos x)
  /\ dict_get "GATE_SAFETY_B" ss = Some (gate_safety gate_b_pos x).
Proof.
  cbv zeta. unfold update_sensors. cbn [sensor_states].
  destruct (gate_safety gate_a_pos (rover_x s));
    destruct (gate_safety gate_b_pos (rover_x s));
    repeat split;
    repeat first [ apply dict_get_set_eq
                 | rewrite dict_get_set_ne by discriminate ].
Qed.

Lemma sensor_lines_centered :
  @front_sensor_x Q _ == zone_center front_zone_left front_zone_width
  /\ @middle_sensor_x Q _ == zone_center middle_zone_left middle_zone_width
  /\ @back_sensor_x Q _ == zone_center back_zone_left back_zone_width.
Proof. repeat split; reflexivity. Qed.

Lemma presence_entry_intro (ss : dict) (name : string) (x sensor_x center : Q) :
  dict_get name ss = Some (presence sensor_x x) ->
  sensor_x == center ->
  presence_entry ss name x center.
Proof.
  intros Hget Heq. exists (presence sensor_x x). split; [exact Hget|].
  rewrite presence_spec, Heq. reflexivity.
Qed.

Lemma safety_entry_intro (ss : dict) (name : string) (x gate_pos : Q) :
  dict_get name ss = Some (gate_safety gate_pos x) ->
  safety_entry ss name x gate_pos.
Proof.
  intros Hget. exists (gate_safety gate_pos x). split; [exact Hget|].
  rewrite gate_safety_spec.
  assert (Hh : 60 / 2 == 30) by reflexivity.
  rewrite Hh. reflexivity.
Qed.

(** C3.  After the rover is moved to [x], each presence entry of the sensor
    dictionary is true exactly when the sensor line of its zone, the
    horizontal centre of the zone, lies in the closed interval from
    [x - rover_width/2] to [x + rover_width/2]; in particular it is true when
    the line is on either edge of the rover. *)
Theorem presence_sensors_closed_interval (s : @airlock Q) (x : Q) :
  let ss := sensor_states (on_canvas_drag x s) in
  let front := zone_center front_zone_left front_zone_width in
  let middle := zone_center middle_zone_left middle_zone_width in
  let back := zone_center back_zone_left back_zone_width in
  (presence_entry ss "PRESENCE_FRONT" x front
   /\ presence_entry ss "PRESENCE_MIDDLE" x middle
   /\ presence_entry ss "PRESENCE_BACK" x back)
  /\ (x - rover_width / 2 == front \/ x + rover_width / 2 == front ->
      dict_get "PRESENCE_FRONT" ss = Some true)
  /\ (x - rover_width / 2 == middle \/ x + rover_width / 2 == middle ->
      dict_get "PRESENCE_MIDDLE" ss = Some true)
  /\ (x - rover_width / 2 == back \/ x + rover_width / 2 == back ->
      dict_get "PRESENCE_BACK" ss = Some true).
Proof.
  cbv zeta. unfold on_canvas_drag.
  destruct (update_sensors_entries
              {| rover_x := x; gate_a := gate_a s; gate_b := gate_b s;
                 sensor_states := sensor_states s;
                 gate_requests := gate_requests s |})
    as (Hf & Hm & Hb & _ & _).
  cbn [rover_x] in Hf, Hm, Hb.
  destruct sensor_lines_centered as (Cf & Cm & Cb).
  assert (Ef := presence_entry_intro _ _ _ _ _ Hf Cf).
  assert (Em := presence_entry_intro _ _ _ _ _ Hm Cm).
  assert (Eb := presence_entry_intro _ _ _ _ _ Hb Cb).
  split; [exact (conj Ef (conj Em Eb))|].
  assert (Hedge : forall c : Q,
            x - rover_width / 2 == c \/ x + rover_width / 2 == c ->
            x - rover_width / 2 <= c /\ c <= x + rover_width / 2).
  { intros c.
    assert (Hw : 0 <= @rover_width Q _ / 2) by (apply Qle_bool_iff; reflexivity).
    revert Hw. generalize (@rover_width Q _ / 2). intros w Hw [Hc|Hc]; lra. }
  repeat split; intros Hc.
  - destruct Ef as (b & Hget & Hiff). rewrite Hget. f_equal. now apply Hiff, Hedge.
  - destruct Em as (b & Hget & Hiff). rewrite Hget. f_equal. now apply Hiff, Hedge.
  - destruct Eb as (b & Hget & Hiff). rewrite Hget. f_equal. now apply Hiff, Hedge.
Qed.

(** C4.  After the rover is moved to [x], the safety entry of a gate is true
    exactly when the rover's interval strictly overlaps the interval of half
    width 30 around the gate; a rover whose edge just touches that interval
    does not trip the sensor. *)
Theorem safety_sensors_strict_overlap (s : @airlock Q) (x : Q) :
  let ss := sensor_states (on_canvas_drag x s) in
  let half_width : Q := safety_zone_width / 2 in
  half_width == 30
  /\ safety_entry ss "GATE_SAFETY_A" x gate_a_pos
  /\ safety_entry ss "GATE_SAFETY_B" x gate_b_pos
  /\ (x + rover_width / 2 == gate_a_pos - half_width
      \/ x - rover_width / 2 == gate_a_pos + half_width ->
      dict_get "GATE_SAFETY_A" ss = Some false)
  /\ (x + rover_width / 2 == gate_b_pos - half_width
      \/ x - rover_width / 2 == gate_b_pos + half_width ->
      dict_get "GATE_SAFETY_B" ss = Some false).
Proof.
  cbv zeta. unfold on_canvas_drag.
  destruct (update_sensors_entries
              {| rover_x := x; gate_a := gate_a s; gate_b := gate_b s;
                 sensor_states := sensor_states s;
                 gate_requests := gate_requests s |})
    as (_ & _ & _ & Ha & Hb).
  cbn [rover_x] in Ha, Hb.
  assert (Ea := safety_entry_intro _ _ _ _ Ha).
  assert (Eb := safety_entry_intro _ _ _ _ Hb).
  assert (Hh : @safety_zone_width Q _ / 2 == 30) by reflexivity.
  split; [exact Hh|]. split; [exact Ea|]. split; [exact Eb|].
  split; intros Hc.
  - destruct Ea as (b & Hget & Hiff). rewrite Hget. f_equal.
    destruct b; [|reflexivity]. exfalso.
    destruct Hiff as [Hiff _]. specialize (Hiff eq_refl).
    rewrite Hh in Hc. revert Hiff Hc.
    generalize (@rover_width Q _ / 2). intros w Hiff [Hc|Hc]; lra.
  - destruct Eb as (b & Hget & Hiff). rewrite Hget. f_equal.
    destruct b; [|reflexivity]. exfalso.
    destruct Hiff as [Hiff _]. specialize (Hiff eq_refl).
    rewrite Hh in Hc. revert Hiff Hc.
    generalize (@rover_width Q _ / 2). intros w Hiff [Hc|Hc]; lra.
Qed.

End Sensors.

(** ** The [GATE_MOVING_] entries, in any arithmetic *)

Section Entries.
Context {F : Type} `{PyNum F}.

(** The request block assigns the gate's flag and its dictionary entry
    together, and no other entry. *)
Lemma process_gate_request_mirror (k : string) (r : bool) (g : gate) (ss : dict) :
  dict_get k ss = Some (gate_moving g) ->
  dict_get k (snd (process_gate_request k r g ss))
  = Some (gate_moving (fst (process_gate_request k r g ss))).
Proof.
  intros Hk. unfold process_gate_request.
  destruct r, (gate_moving g) eqn:Em, (gate_open g), (gate_target_state g);
    cbn [negb fst snd gate_moving]; rewrite ?Em;
    first [exact Hk | apply dict_get_set_eq].
Qed.

Lemma process_gate_request_other (k k' : string) (r : bool) (g : gate) (ss : dict) :
  k' <> k ->
  dict_get k' (snd (process_gate_request k r g ss)) = dict_get k' ss.
Proof.
  intros Hne. unfold process_gate_request.
  destruct r, (gate_moving g), (gate_open g), (gate_target_state g);
    cbn [negb snd]; first [reflexivity | now apply dict_get_set_ne].
Qed.

Lemma process_gate_request_keys (k : string) (r : bool) (g : gate) (ss : dict) :
  In k (dict_keys ss) ->
  dict_keys (snd (process_gate_request k r g ss)) = dict_keys ss.
Proof.
  intros Hin. unfold process_gate_request.
  destruct r, (gate_moving g), (gate_open g), (gate_target_state g);
    cbn [negb snd]; first [reflexivity | now apply dict_keys_set].
Qed.

(** And so does the animation block. *)
Lemma animate_gate_mirror (k : string) (g : gate) (ss : dict) :
  dict_get k ss = Some (gate_moving g) ->
  dict_get k (snd (animate_gate k g ss))
  = Some (gate_moving (fst (animate_gate k g ss))).
Proof.
  intros Hk. unfold animate_gate. cbv zeta.
  destruct (gate_moving g) eqn:Em; [|cbn [fst snd]; now rewrite Em].
  destruct (gate_target_state g); cbn [negb];
    match goal with
    | |- context [if fleb ?a ?b then _ else _] => destruct (fleb a b)
    end; cbn [fst snd gate_moving]; rewrite ?Em;
    first [exact Hk | apply dict_get_set_eq].
Qed.

Lemma animate_gate_other (k k' : string) (g : gate) (ss : dict) :
  k' <> k -> dict_get k' (snd (animate_gate k g ss)) = dict_get k' ss.
Proof.
  intros Hne. unfold animate_gate. cbv zeta.
  destruct (gate_moving g); [|reflexivity].
  destruct (gate_target_state g); cbn [negb];
    match goal with
    | |- context [if fleb ?a ?b then _ else _] => destruct (fleb a b)
    end; cbn [snd]; first [reflexivity | now apply dict_get_set_ne].
Qed.

Lemma animate_gate_keys (k : string) (g : gate) (ss : dict) :
  In k (dict_keys ss) -> dict_keys (snd (animate_gate k g ss)) = dict_keys ss.
Proof.
  intros Hin. unfold animate_gate. cbv zeta.
  destruct (gate_moving g); [|reflexivity].
  destruct (gate_target_state g); cbn [negb];
    match goal with
    | |- context [if fleb ?a ?b then _ else _] => destruct (fleb a b)
    end; cbn [snd]; first [reflexivity | now apply dict_keys_set].
Qed.

End Entries.

(** ** The gate state machines *)

Section Gates.
Local Open Scope Q_scope.

Lemma py_min_cases (a b : Q) :
  (a <= b /\ py_min a b = a) \/ (b < a /\ py_min a b = b).
Proof.
  unfold py_min. destruct (fltb b a) eqn:E; exact_order; auto.
Qed.

(** One step of the request block keeps the gate's invariant. *)
Lemma process_gate_request_inv (k : string) (r : bool) (g : gate) (ss : dict) :
  gate_inv g -> gate_inv (fst (process_gate_request k r g ss)).
Proof.
  intros Hg. pose proof Hg as ((Hp0 & Hp1) & Ht & Hrest).
  unfold process_gate_request.
  destruct r, (gate_moving g) eqn:Em, (gate_open g) eqn:Eo,
    (gate_target_state g) eqn:Et; cbn [negb fst]; try exact Hg;
    unfold gate_inv; cbn [gate_animation_progress gate_animation_time
                          gate_moving gate_open];
    (split; [split; assumption|]); (split; [|discriminate]);
    exact_arith; nra.
Qed.

(** One tick of the animation block keeps the gate's invariant. *)
Lemma animate_gate_inv (k : string) (g : gate) (ss : dict) :
  gate_inv g -> gate_inv (fst (animate_gate k g ss)).
Proof.
  intros Hg. pose proof Hg as ((Hp0 & Hp1) & Ht & Hrest).
  unfold animate_gate.
  destruct (gate_moving g) eqn:Em; [|exact Hg].
  cbn [negb]. cbv zeta.
  destruct (py_min_cases
              ((gate_animation_time g + dt) / gate_animation_duration)%num
              (of_Z 1))
    as [[Hle ->]|[Hlt ->]];
  destruct (gate_target_state g) eqn:Et;
  match goal with
  | |- context [if fleb ?a ?b then _ else _] => destruct (fleb a b) eqn:Ec
  end; cbn [fst]; unfold gate_inv;
  cbn [gate_animation_progress gate_animation_time gate_moving gate_open];
  exact_order; exact_arith;
  repeat split; try lra; try discriminate; try reflexivity;
  try (intros Hm; rewrite Em in Hm; discriminate).
Qed.

(** *** The invariant of the runs *)

Lemma initial_inv : airlock_inv initial.
Proof.
  assert (Hg : gate_inv initial_gate).
  { unfold gate_inv, initial_gate.
    cbn [gate_animation_progress gate_animation_time gate_moving gate_open].
    exact_arith. repeat split; solve [lra | reflexivity]. }
  refine (conj Hg (conj Hg (conj eq_refl (conj eq_refl (conj eq_refl _))))).
  cbn [initial gate_requests]. unfold initial_gate_requests, request_keys.
  rewrite !dom_insert_L. set_solver.
Qed.

Lemma animate_gates_inv (s : airlock) :
  airlock_inv s -> airlock_inv (animate_gates s).
Proof.
  intros (Ha & Hb & Ma & Mb & Hk & Hd). unfold mirrored in Ma, Mb. cbn in Ma, Mb.
  unfold animate_gates.
  pose proof (animate_gate_inv "GATE_MOVING_A" (gate_a s) (sensor_states s) Ha) as Ia.
  pose proof (animate_gate_mirror "GATE_MOVING_A" (gate_a s) (sensor_states s) Ma) as Ja.
  pose proof (animate_gate_other "GATE_MOVING_A" "GATE_MOVING_B" (gate_a s)
                (sensor_states s) ltac:(discriminate)) as Oa.
  pose proof (animate_gate_keys "GATE_MOVING_A" (gate_a s) (sensor_states s)) as Ka.
  destruct (animate_gate "GATE_MOVING_A" (gate_a s) (sensor_states s)) as [ga ss1].
  cbn [fst snd] in *.
  pose proof (animate_gate_inv "GATE_MOVING_B" (gate_b s) ss1 Hb) as Ib.
  pose proof (animate_gate_mirror "GATE_MOVING_B" (gate_b s) ss1) as Jb.
  pose proof (animate_gate_other "GATE_MOVING_B" "GATE_MOVING_A" (gate_b s)
                ss1 ltac:(discriminate)) as Ob.
  pose proof (animate_gate_keys "GATE_MOVING_B" (gate_b s) ss1) as Kb.
  destruct (animate_gate "GATE_MOVING_B" (gate_b s) ss1) as [gb ss2].
  cbn [fst snd] in *.
  rewrite Hk in Ka. specialize (Ka ltac:(cbn; tauto)).
  rewrite Ka in Kb. specialize (Kb ltac:(cbn; tauto)).
  unfold airlock_inv, mirrored.
  cbn [gate_a gate_b sensor_states gate_requests gate_of moving_key].
  refine (conj Ia (conj Ib (conj _ (conj _ (conj Kb Hd))))).
  - now rewrite Ob.
  - apply Jb. now rewrite Oa.
Qed.

(** With both request keys present, [process_gate_requests] returns. *)
Lemma process_gate_requests_returns (s : @airlock Q) :
  dom (gate_requests s) = request_keys ->
  exists request_a request_b : bool,
    gate_requests s !! "GATE_REQUEST_A" = Some request_a
    /\ gate_requests s !! "GATE_REQUEST_B" = Some request_b
    /\ process_gate_requests s
       = Returns
           {| rover_x := rover_x s;
              gate_a :=
                fst (process_gate_request "GATE_MOVING_A" request_a
                       (gate_a s) (sensor_states s));
              gate_b :=
                fst (process_gate_request "GATE_MOVING_B" request_b (gate_b s)
                       (snd (process_gate_request "GATE_MOVING_A" request_a
                               (gate_a s) (sensor_states s))));
              sensor_states :=
                snd (process_gate_request "GATE_MOVING_B" request_b (gate_b s)
                       (snd (process_gate_request "GATE_MOVING_A" request_a
                               (gate_a s) (sensor_states s))));
              gate_requests := gate_requests s |}.
Proof.
  intros Hd.
  assert (Ha : is_Some (gate_requests s !! "GATE_REQUEST_A")).
  { apply elem_of_dom. rewrite Hd. unfold request_keys. set_solver. }
  assert (Hb : is_Some (gate_requests s !! "GATE_REQUEST_B")).
  { apply elem_of_dom. rewrite Hd. unfold request_keys. set_solver. }
  destruct Ha as [ra Ha], Hb as [rb Hb]. exists ra, rb.
  split; [exact Ha|]. split; [exact Hb|].
  unfold process_gate_requests. rewrite Ha, Hb.
  destruct (process_gate_request "GATE_MOVING_A" ra (gate_a s) (sensor_states s))
    as [ga ss1].
  cbn [fst snd].
  now destruct (process_gate_request "GATE_MOVING_B" rb (gate_b s) ss1).
Qed.

Lemma process_gate_requests_inv (s : airlock) :
  airlock_inv s -> airlock_inv (state_of (process_gate_requests s)).
Proof.
  intros Hs. pose proof Hs as (Ha & Hb & Ma & Mb & Hk & Hd).
  unfold mirrored in Ma, Mb. cbn in Ma, Mb.
  destruct (process_gate_requests_returns s Hd) as (ra & rb & _ & _ & ->).
  cbn [state_of].
  pose proof (process_gate_request_inv "GATE_MOVING_A" ra (gate_a s) (sensor_states s) Ha) as Ia.
  pose proof (process_gate_request_mirror "GATE_MOVING_A" ra (gate_a s) (sensor_states s) Ma) as Ja.
  pose proof (process_gate_request_other "GATE_MOVING_A" "GATE_MOVING_B" ra (gate_a s)
                (sensor_states s) ltac:(discriminate)) as Oa.
  pose proof (process_gate_request_keys "GATE_MOVING_A" ra (gate_a s) (sensor_states s)) as Ka.
  destruct (process_gate_request "GATE_MOVING_A" ra (gate_a s) (sensor_states s))
    as [ga ss1].
  cbn [fst snd] in *.
  pose proof (process_gate_request_inv "GATE_MOVING_B" rb (gate_b s) ss1 Hb) as Ib.
  pose proof (process_gate_request_mirror "GATE_MOVING_B" rb (gate_b s) ss1) as Jb.
  pose proof (process_gate_request_other "GATE_MOVING_B" "GATE_MOVING_A" rb (gate_b s)
                ss1 ltac:(discriminate)) as Ob.
  pose proof (process_gate_request_keys "GATE_MOVING_B" rb (gate_b s) ss1) as Kb.
  destruct (process_gate_request "GATE_MOVING_B" rb (gate_b s) ss1) as [gb ss2].
  cbn [fst snd] in *.
  rewrite Hk in Ka. specialize (Ka ltac:(cbn; tauto)).
  rewrite Ka in Kb. specialize (Kb ltac:(cbn; tauto)).
  unfold airlock_inv, mirrored.
  cbn [gate_a gate_b sensor_states gate_requests gate_of moving_key].
  refine (conj Ia (conj Ib (conj _ (conj _ (conj Kb Hd))))).
  - now rewrite Ob.
  - apply Jb. now rewrite Oa.
Qed.

(** The parsing loop assigns only keys the dictionary already has. *)
Lemma parse_pairs_dom (pairs : list string) (requests : gmap string bool) :
  dom (state_of (parse_pairs pairs requests)) = dom requests.
Proof.
  revert requests. induction pairs as [|item rest IH]; intros requests.
  - reflexivity.
  - cbn [parse_pairs]. destruct (contains ":" item); [|apply IH].
    destruct (split ":" item) as [|name [|value [|? ?]]]; try reflexivity.
    destruct (requests !! name) eqn:E; [|apply IH].
    rewrite IH. apply dom_insert_lookup_L. now rewrite E.
Qed.

Lemma read_arduino_data_inv (line : string) (s : airlock) :
  airlock_inv s -> airlock_inv (state_of (read_arduino_data line s)).
Proof.
  intros Hs. unfold read_arduino_data.
  destruct (last_char line); [|exact Hs].
  destruct (startswith "<" line && endswith ">" line); [|exact Hs].
  assert (Hw : airlock_inv
                 (with_requests s (state_of (decode_pairs line (gate_requests s))))).
  { destruct Hs as (Ha & Hb & Ma & Mb & Hk & Hd).
    refine (conj Ha (conj Hb (conj Ma (conj Mb (conj Hk _))))).
    cbn [with_requests gate_requests]. unfold decode_pairs.
    now rewrite parse_pairs_dom. }
  destruct (decode_pairs line (gate_requests s)) as [requests|e requests];
    cbn [state_of] in *.
  - now apply process_gate_requests_inv.
  - exact Hw.
Qed.

Lemma update_sensors_inv (s : airlock) :
  airlock_inv s -> airlock_inv (update_sensors s).
Proof.
  intros (Ha & Hb & Ma & Mb & Hk & Hd).
  unfold mirrored in Ma, Mb. cbn in Ma, Mb.
  unfold airlock_inv, mirrored, update_sensors.
  cbn [gate_a gate_b sensor_states gate_requests gate_of moving_key].
  refine (conj Ha (conj Hb (conj _ (conj _ (conj _ Hd)))));
    destruct (gate_safety gate_a_pos (rover_x s));
    destruct (gate_safety gate_b_pos (rover_x s));
    rewrite ?dict_get_set_ne by discriminate; try assumption;
    repeat (apply dict_keys_set_in; [|cbn; tauto]);
    exact Hk.
Qed.

Lemma step_inv (s : airlock) (e : event) :
  airlock_inv s -> airlock_inv (step s e).
Proof.
  intros Hs. destruct e as [|line|new_x|k]; cbn [step].
  - now apply animate_gates_inv.
  - now apply read_arduino_data_inv.
  - apply update_sensors_inv. exact Hs.
  - apply update_sensors_inv. exact Hs.
Qed.

Lemma reachable_inv (s : airlock) : reachable s -> airlock_inv s.
Proof.
  induction 1 as [|s e _ IH]; [exact initial_inv | now apply step_inv].
Qed.

Lemma reachable_run (s : @airlock Q) (events : list event) :
  reachable s -> reachable (run s events).
Proof.
  revert s. induction events as [|e rest IH]; intros s Hs; [exact Hs|].
  cbn. apply IH. now constructor.
Qed.

(** *** Progress bounds, phases and the mirrored flags *)

(** C7.  In every state of a run, the progress of each gate lies between 0
    and 1; a gate at rest and not open (phase SEALED) has progress 0 and a
    gate at rest and open (phase OPEN) has progress 1. *)
Theorem progress_bounds_and_phase_coherence (s : @airlock Q) (n : gate_name) :
  reachable s ->
  let g := gate_of n s in
  (0 <= gate_animation_progress g /\ gate_animation_progress g <= 1)
  /\ (gate_open g = false -> gate_moving g = false ->
      status_text g = SEALED /\ gate_animation_progress g = 0)
  /\ (gate_open g = true -> gate_moving g = false ->
      status_text g = OPEN /\ gate_animation_progress g = 1)
  /\ (status_text g = SEALED -> gate_animation_progress g = 0)
  /\ (status_text g = OPEN -> gate_animation_progress g = 1).
Proof.
  intros Hr. apply reachable_inv in Hr.
  assert (Hg : gate_inv (gate_of n s)).
  { destruct Hr as (Ha & Hb & _). now destruct n. }
  cbv zeta. destruct Hg as (Hp & _ & Hrest). split; [exact Hp|].
  unfold status_text.
  destruct (gate_moving (gate_of n s)) eqn:Em, (gate_open (gate_of n s)) eqn:Eo,
    (gate_target_state (gate_of n s)); cbn [andb negb];
    repeat split; intros; try discriminate;
    destruct (Hrest eq_refl) as [Hv _]; exact Hv.
Qed.

Lemma progress_bounds_and_phase_coherence_witness :
  let s := run (@initial Q _) (open_cycle 12) in
  reachable s
  /\ (0 <= gate_animation_progress (gate_of GateA s)
      /\ gate_animation_progress (gate_of GateA s) <= 1).
Proof.
  intros s.
  assert (Hr : reachable s) by (apply reachable_run; constructor).
  split; [exact Hr|].
  exact (proj1 (progress_bounds_and_phase_coherence s GateA Hr)).
Defined.

(** C10.  In every state of a run, the [GATE_MOVING_A] and [GATE_MOVING_B]
    entries of the sensor dictionary equal the moving flags of gate A and
    gate B, so the flags that the telegram carries are those entries. *)
Theorem moving_flags_mirrored (s : @airlock Q) :
  reachable s ->
  dict_get "GATE_MOVING_A" (sensor_states s) = Some (gate_moving (gate_a s))
  /\ dict_get "GATE_MOVING_B" (sensor_states s) = Some (gate_moving (gate_b s)).
Proof.
  intros Hr. apply reachable_inv in Hr.
  destruct Hr as (_ & _ & Ma & Mb & _). split; [exact Ma | exact Mb].
Qed.

Lemma moving_flags_mirrored_witness :
  let s := run (@initial Q _) (open_cycle 12) in
  reachable s
  /\ dict_get "GATE_MOVING_A" (sensor_states s) = Some (gate_moving (gate_a s)).
Proof.
  intros s.
  assert (Hr : reachable s) by (apply reachable_run; constructor).
  split; [exact Hr|].
  exact (proj1 (moving_flags_mirrored s Hr)).
Defined.

(** *** Reversal in mid-motion *)

Lemma animate_gates_gate (n : gate_name) (s : @airlock Q) :
  exists ss : dict,
    gate_of n (animate_gates s) = fst (animate_gate (moving_key n) (gate_of n s) ss).
Proof.
  unfold animate_gates.
  destruct (animate_gate "GATE_MOVING_A" (gate_a s) (sensor_states s))
    as [ga ss1] eqn:Ea.
  destruct (animate_gate "GATE_MOVING_B" (gate_b s) ss1) as [gb ss2] eqn:Eb.
  destruct n; cbn [gate_of gate_a gate_b moving_key].
  - exists (sensor_states s). now rewrite Ea.
  - exists ss1. now rewrite Eb.
Qed.



(** A request line assigns its one request. *)
Lemma decode_request_line (n : gate_name) (r : bool) (requests : gmap string bool) :
  is_Some (requests !! request_key n) ->
  decode_pairs (request_line n r) requests
  = Returns (<[request_key n := r]> requests).
Proof.
  intros [v Hv]. unfold decode_pairs.
  destruct n, r;
    match goal with
    | |- context [split "," ?d] =>
        let l := eval vm_compute in (split "," d) in
        change (split "," d) with l
    end;
    cbn [parse_pairs];
    match goal with
    | |- context [contains ":" ?i] => change (contains ":" i) with true
    end;
    match goal with
    | |- context [split ":" ?i] =>
        let l := eval vm_compute in (split ":" i) in
        change (split ":" i) with l
    end;
    cbv iota beta; cbn [request_key] in Hv; rewrite Hv; reflexivity.
Qed.


(** *** The scenarios of the specification *)

(** C6.  From the initial state (both gates sealed and at rest), the line
    that asks gate A to open followed by exactly 30 ticks leaves gate A in
    phase OPEN with progress 1 and the moving flag cleared, and a 31st tick
    leaves the whole state unchanged; this holds in exact arithmetic and in
    binary64. *)
Theorem gate_open_cycle :
  @open_cycle_completes Q _ /\ @open_cycle_completes float _.
Proof.
  split; unfold open_cycle_completes; cbv zeta;
    repeat split; vm_compute; reflexivity.
Qed.

(** C1 fails on the code.  With gate A open, the rover on the line of gate
    A (its safety sensor tripped) and gate A asked to close, the next tick
    advances the elapsed time and lowers the progress, in exact arithmetic
    and in binary64: closing is not paused. *)
Theorem closing_not_paused_by_safety_sensor :
  @closing_advances_over_rover Q _ /\ @closing_advances_over_rover float _.
Proof.
  split; unfold closing_advances_over_rover; cbv zeta;
    repeat split; vm_compute; reflexivity.
Qed.

(** Whatever the sensor dictionary holds, a tick on a closing gate changes
    the elapsed time: it adds [dt], or resets to 0 a time of 2.9 or more. *)
Lemma closing_tick_advances (k : string) (g : @gate Q) (ss : dict) :
  gate_inv g ->
  gate_moving g = true ->
  gate_target_state g = false ->
  ~ gate_animation_time (fst (animate_gate k g ss)) == gate_animation_time g.
Proof.
  intros (_ & Ht & _) Hm Hc. unfold animate_gate. rewrite Hm, Hc.
  cbn [negb]. cbv zeta.
  destruct (py_min_cases
              ((gate_animation_time g + dt) / gate_animation_duration)%num
              (of_Z 1))
    as [[Hle ->]|[Hlt ->]];
  match goal with
  | |- context [if fleb ?a ?b then _ else _] => destruct (fleb a b) eqn:Ec
  end; cbn [fst gate_animation_time]; exact_order; exact_arith; lra.
Qed.

(** In the reversal scenario the progress falls by exactly one tick's worth
    in exact arithmetic; in binary64 the fall is one tick's worth up to
    rounding, here just above [dt / duration] and within 1e-15 of it. *)
Remark reversal_jump_exact :
  (@reversal_jump Q _ == dt / gate_animation_duration)%Q.
Proof. vm_compute. reflexivity. Qed.

Remark reversal_jump_binary64 :
  let one_tick : float := (dt / gate_animation_duration)%num in
  (one_tick <? @reversal_jump float _)%num = true
  /\ (@reversal_jump float _ <? one_tick + lit 1 1000000000000000)%num = true.
Proof. split; vm_compute; reflexivity. Qed.

(** The closing tick reads nothing of the sensor dictionary: whatever the
    gate's safety entry says, the gate it leaves is the same. *)
Lemma closing_tick_ignores_sensors (k : string) (g : @gate Q) (ss ss' : dict) :
  fst (animate_gate k g ss) = fst (animate_gate k g ss').
Proof.
  unfold animate_gate. cbv zeta.
  destruct (gate_moving g); [|reflexivity].
  destruct (gate_target_state g); cbn [negb];
    match goal with
    | |- context [if fleb ?a ?b then _ else _] => destruct (fleb a b)
    end; reflexivity.
Qed.

End Gates.

(** ** The request blocks, whatever the arithmetic *)

Section RequestBlocks.
Context {F : Type} `{PyNum F}.

(** Once the request block has run on a gate, running it again with the
    same request changes nothing, whatever the dictionary. *)
Lemma process_gate_request_again (k : string) (r : bool) (g : @gate F) (ss ss' : dict) :
  process_gate_request k r (fst (process_gate_request k r g ss)) ss'
  = (fst (process_gate_request k r g ss), ss').
Proof.
  destruct g as [o m p t tg]. unfold process_gate_request.
  destruct r, m, o, tg; reflexivity.
Qed.

(** [process_gate_requests] is idempotent: with the stored requests
    unchanged, a second call returns the state the first one left (and
    raises again where the first one raised). *)
Lemma process_gate_requests_twice (s : @airlock F) :
  process_gate_requests (state_of (process_gate_requests s))
  = process_gate_requests s.
Proof.
  unfold process_gate_requests at 2 3.
  destruct (gate_requests s !! "GATE_REQUEST_A") as [ra|] eqn:Ea;
    [|cbn [state_of]; unfold process_gate_requests; now rewrite Ea].
  destruct (gate_requests s !! "GATE_REQUEST_B") as [rb|] eqn:Eb;
    [|cbn [state_of]; unfold process_gate_requests; now rewrite Ea, Eb].
  pose proof (process_gate_request_again "GATE_MOVING_A" ra (gate_a s) (sensor_states s)) as Ia.
  destruct (process_gate_request "GATE_MOVING_A" ra (gate_a s) (sensor_states s))
    as [ga ss1].
  pose proof (process_gate_request_again "GATE_MOVING_B" rb (gate_b s) ss1) as Ib.
  destruct (process_gate_request "GATE_MOVING_B" rb (gate_b s) ss1) as [gb ss2].
  cbn [fst snd state_of] in *.
  unfold process_gate_requests. cbn [gate_requests gate_a gate_b sensor_states rover_x].
  rewrite Ea, Eb, Ia, Ib. reflexivity.
Qed.

Lemma process_gate_requests_requests (s : @airlock F) :
  gate_requests (state_of (process_gate_requests s)) = gate_requests s.
Proof.
  unfold process_gate_requests.
  destruct (gate_requests s !! "GATE_REQUEST_A"); [|reflexivity].
  destruct (gate_requests s !! "GATE_REQUEST_B"); [|reflexivity].
  destruct (process_gate_request "GATE_MOVING_A" _ _ _) as [ga ss1].
  now destruct (process_gate_request "GATE_MOVING_B" _ _ _).
Qed.

Lemma with_requests_same (s : @airlock F) : with_requests s (gate_requests s) = s.
Proof. now destruct s. Qed.

End RequestBlocks.

(** ** Reversal in the arithmetic of the code *)

Section AnyArithmetic.
Context {F : Type} `{PyNum F}.





End AnyArithmetic.





(** ** The telegram codec *)

Section Codec.

(** *** Strings *)

Lemma append_cons (c : ascii) (a b : string) :
  String c a +:+ b = String c (a +:+ b).
Proof. reflexivity. Qed.

Lemma drop_last_append (b : string) (c : ascii) :
  drop_last (b +:+ String c EmptyString) = b.
Proof.
  induction b as [|a b IH]; [reflexivity|].
  rewrite append_cons. cbn [drop_last].
  destruct b as [|a' b']; [reflexivity|].
  rewrite append_cons in *. now rewrite IH.
Qed.

Lemma last_char_append (b : string) (c : ascii) :
  last_char (b +:+ String c EmptyString) = Some c.
Proof.
  induction b as [|a b IH]; [reflexivity|].
  rewrite append_cons. cbn [last_char].
  destruct b as [|a' b']; [reflexivity|].
  rewrite append_cons in *. exact IH.
Qed.

Lemma last_char_nonempty (c : ascii) (r : string) :
  exists c' : ascii, last_char (String c r) = Some c'.
Proof.
  revert c. induction r as [|a r IH]; intros c; [now exists c|].
  cbn [last_char]. apply IH.
Qed.

Lemma contains_append (c : ascii) (a b : string) :
  contains c (a +:+ b) = contains c a || contains c b.
Proof.
  induction a as [|x a IH]; [reflexivity|].
  rewrite append_cons. cbn [contains]. now rewrite IH, orb_assoc.
Qed.

Lemma split_nonempty (sep : ascii) (s : string) : split sep s <> [].
Proof.
  destruct s as [|c r]; cbn [split]; [discriminate|].
  destruct (Ascii.eqb c sep); [discriminate|].
  destruct (split sep r); discriminate.
Qed.

(** A string without the separator is one segment. *)
Lemma split_plain (sep : ascii) (p : string) :
  contains sep p = false -> split sep p = [p].
Proof.
  induction p as [|c p IH]; [reflexivity|].
  cbn [contains split]. intros Hc. apply orb_false_iff in Hc as [Hc Hp].
  rewrite Hc, (IH Hp). reflexivity.
Qed.

(** The first separator after a plain prefix ends the first segment. *)
Lemma split_append (sep : ascii) (p rest : string) :
  contains sep p = false ->
  split sep (p +:+ String sep rest) = p :: split sep rest.
Proof.
  induction p as [|c p IH]; intros Hc.
  - change (EmptyString +:+ String sep rest) with (String sep rest).
    cbn [split]. now rewrite Ascii.eqb_refl.
  - cbn [contains] in Hc. apply orb_false_iff in Hc as [Hc Hp].
    rewrite append_cons. cbn [split]. rewrite Hc, (IH Hp). reflexivity.
Qed.

(** Splitting what was joined gives the parts back. *)
Lemma split_join (sep : ascii) (parts : list string) :
  parts <> [] ->
  Forall (fun p => contains sep p = false) parts ->
  split sep (join (String sep EmptyString) parts) = parts.
Proof.
  induction parts as [|p rest IH]; [congruence|].
  intros _ Hall. inversion Hall as [|? ? Hp Hrest]; subst.
  destruct rest as [|q rest'].
  - cbn [join]. now apply split_plain.
  - change (join (String sep EmptyString) (p :: q :: rest'))
      with (p +:+ String sep (join (String sep EmptyString) (q :: rest'))).
    rewrite (split_append _ _ _ Hp). f_equal. apply IH; [discriminate | exact Hrest].
Qed.

(** *** The message and its items *)

Lemma sensor_parts_items (ss : dict) :
  sensor_parts ss
  = map format_item
      (List.filter (fun '(name, _) =>
                 negb (String.eqb name "GATE_MOVING_A"
                       || String.eqb name "GATE_MOVING_B")) ss).
Proof.
  induction ss as [|[name state] rest IH]; [reflexivity|].
  cbn [sensor_parts List.filter].
  destruct (negb (String.eqb name "GATE_MOVING_A" || String.eqb name "GATE_MOVING_B"));
    cbn [map]; rewrite IH; reflexivity.
Qed.

Lemma encode_items (ss : dict) (ga gb : bool) :
  encode ss ga gb
  = "<" +:+ join "," (map format_item (sent_items ss ga gb)) +:+ ">".
Proof.
  unfold encode, sent_items. cbv zeta.
  rewrite sensor_parts_items, map_app, <- app_assoc. reflexivity.
Qed.

Lemma bit_is_one (v : bool) : String.eqb (bit v) "1" = v.
Proof. now destruct v. Qed.

Lemma format_item_no_comma (name : string) (v : bool) :
  contains "," name = false -> contains "," (format_item (name, v)) = false.
Proof.
  intros Hc. unfold format_item. cbn [fst snd].
  rewrite !contains_append, Hc. destruct v; reflexivity.
Qed.

Lemma format_item_colon (name : string) (v : bool) :
  contains ":" (format_item (name, v)) = true.
Proof.
  unfold format_item. cbn [fst snd]. rewrite !contains_append.
  cbn. now rewrite orb_true_r.
Qed.

Lemma format_item_split (name : string) (v : bool) :
  contains ":" name = false ->
  split ":" (format_item (name, v)) = [name; bit v].
Proof.
  intros Hc. unfold format_item. cbn [fst snd].
  change (":" +:+ bit v) with (String ":" (bit v)).
  rewrite (split_append _ _ _ Hc). now destruct v.
Qed.

(** On well-formed pairs the parsing loop returns, having made the
    assignments one after the other. *)
Lemma parse_pairs_items (items : dict) (requests : gmap string bool) :
  Forall (fun item => contains ":" (fst item) = false) items ->
  parse_pairs (map format_item items) requests
  = Returns (fold_left assign_known items requests).
Proof.
  revert requests. induction items as [|[name v] rest IH]; intros requests Hall.
  - reflexivity.
  - inversion Hall as [|? ? Hname Hrest]; subst. cbn [fst] in Hname.
    cbn [map parse_pairs fold_left].
    rewrite format_item_colon, (format_item_split _ _ Hname), bit_is_one.
    unfold assign_known at 2. cbn [fst snd].
    destruct (requests !! name); now apply IH.
Qed.

(** The line that [encode] builds passes the delimiter test and parses to
    its items. *)
Lemma encode_accepted (ss : dict) (ga gb : bool) :
  last_char (encode ss ga gb) = Some ">"%char
  /\ startswith "<" (encode ss ga gb) = true
  /\ endswith ">" (encode ss ga gb) = true.
Proof.
  rewrite encode_items. unfold endswith.
  change ("<" +:+ ?x) with (String "<" x).
  repeat split.
  - rewrite <- append_cons. apply last_char_append.
  - rewrite <- append_cons, last_char_append. reflexivity.
Qed.

Lemma sent_items_keys (ss : dict) (ga gb : bool) :
  Forall plain_key (dict_keys ss) ->
  Forall (fun item => plain_key (fst item)) (sent_items ss ga gb).
Proof.
  intros Hall. unfold sent_items. apply Forall_app. split.
  - induction ss as [|[name state] rest IH]; [constructor|].
    inversion Hall as [|? ? Hname Hrest]; subst. cbn [List.filter].
    destruct (negb _); [constructor; [exact Hname|]|]; now apply IH.
  - repeat constructor.
Qed.

Lemma decode_encode_items (ss : dict) (ga gb : bool) (requests : gmap string bool) :
  Forall plain_key (dict_keys ss) ->
  decode_pairs (encode ss ga gb) requests
  = Returns (fold_left assign_known (sent_items ss ga gb) requests).
Proof.
  intros Hall. apply (sent_items_keys ss ga gb) in Hall.
  unfold decode_pairs. rewrite encode_items.
  change ("<" +:+ ?x) with (String "<" x). cbn [strip_delimiters].
  rewrite drop_last_append, split_join.
  - apply parse_pairs_items. eapply List.Forall_impl; [|exact Hall].
    intros item Hitem. apply Hitem.
  - unfold sent_items. rewrite map_app. intros Hnil.
    apply app_eq_nil in Hnil as [_ Hnil]. discriminate.
  - apply List.Forall_map. eapply List.Forall_impl; [|exact Hall].
    intros [name v] Hitem. apply format_item_no_comma, Hitem.
Qed.

(** *** What the assignments leave in [self.gate_requests] *)

Lemma dict_get_absent (k : string) (d : dict) :
  ~ In k (dict_keys d) -> dict_get k d = None.
Proof.
  induction d as [|[k' v'] r IH]; [reflexivity|].
  cbn [dict_keys map fst In dict_get]. intros Hnot.
  destruct (String.eqb k' k) eqn:E.
  - apply String.eqb_eq in E. tauto.
  - apply IH. unfold dict_keys. tauto.
Qed.

Lemma assign_known_other (requests : gmap string bool) (item : string * bool)
    (k : string) :
  fst item <> k -> assign_known requests item !! k = requests !! k.
Proof.
  intros Hne. unfold assign_known.
  destruct (requests !! fst item); [|reflexivity].
  now apply lookup_insert_ne.
Qed.

Lemma fold_assign_lookup (items : dict) (requests : gmap string bool) (k : string) :
  List.NoDup (dict_keys items) ->
  is_Some (requests !! k) ->
  fold_left assign_known items requests !! k
  = match dict_get k items with
    | Some v => Some v
    | None => requests !! k
    end.
Proof.
  revert requests. induction items as [|[name v] rest IH]; intros requests Hnd Hk.
  - reflexivity.
  - cbn [dict_keys map fst] in Hnd. inversion Hnd as [|? ? Hnot Hrest]; subst.
    cbn [fold_left dict_get].
    destruct (String.eqb name k) eqn:E.
    + apply String.eqb_eq in E. subst name.
      assert (Ha : assign_known requests (k, v) = <[k := v]> requests).
      { unfold assign_known. cbn [fst snd]. now destruct Hk as [w ->]. }
      rewrite Ha, (IH _ Hrest), (dict_get_absent _ _ Hnot).
      * apply lookup_insert_eq.
      * rewrite lookup_insert_eq. eauto.
    + apply String.eqb_neq in E.
      rewrite (IH _ Hrest).
      * now rewrite (assign_known_other _ (name, v) k E).
      * now rewrite (assign_known_other _ (name, v) k E).
Qed.

Lemma filter_keys_nodup (f : string * bool -> bool) (d : dict) :
  List.NoDup (dict_keys d) -> List.NoDup (dict_keys (List.filter f d)).
Proof.
  induction d as [|[k v] r IH]; [intros; constructor|].
  cbn [dict_keys map fst List.filter]. intros Hnd.
  inversion Hnd as [|? ? Hnot Hrest]; subst.
  destruct (f (k, v)); [|now apply IH].
  cbn [map fst]. constructor; [|now apply IH].
  intros Hin. apply Hnot. clear -Hin.
  induction r as [|[k' v'] r IH]; [exact Hin|].
  cbn [List.filter] in Hin. cbn [map fst In].
  destruct (f (k', v')); [destruct Hin as [Hin|Hin]; [now left|]|]; right; now apply IH.
Qed.

Lemma filter_keys_get (f : string * bool -> bool) (d : dict) (k : string) :
  (forall v, f (k, v) = true) ->
  dict_get k (List.filter f d) = dict_get k d.
Proof.
  intros Hf. induction d as [|[k' v'] r IH]; [reflexivity|].
  cbn [List.filter dict_get].
  destruct (String.eqb k' k) eqn:E.
  - apply String.eqb_eq in E. subst k'. rewrite Hf. cbn [dict_get].
    now rewrite String.eqb_refl.
  - destruct (f (k', v')); [cbn [dict_get]; rewrite E|]; exact IH.
Qed.

(** Decoding the message of a dictionary with distinct plain keys returns,
    and leaves under every request key other than the two [GATE_MOVING_]
    names the value the dictionary has for it, or the old request when the
    dictionary has none. *)
Lemma decode_encode_lookup (ss : dict) (ga gb : bool)
    (requests : gmap string bool) (k : string) :
  List.NoDup (dict_keys ss) ->
  Forall plain_key (dict_keys ss) ->
  is_Some (requests !! k) ->
  k <> "GATE_MOVING_A" -> k <> "GATE_MOVING_B" ->
  exists requests' : gmap string bool,
    decode_pairs (encode ss ga gb) requests = Returns requests'
    /\ requests' !! k
       = match dict_get k ss with
         | Some v => Some v
         | None => requests !! k
         end.
Proof.
  intros Hnd Hplain Hk Ha Hb. eexists. split.
  - now apply decode_encode_items.
  - unfold sent_items. rewrite fold_left_app. cbn [fold_left].
    rewrite !assign_known_other by (cbn [fst]; congruence).
    rewrite fold_assign_lookup; [|now apply filter_keys_nodup|exact Hk].
    rewrite filter_keys_get; [reflexivity|].
    intros v. apply String.eqb_neq in Ha, Hb. cbv beta iota.
    now rewrite Ha, Hb.
Qed.

(** *** The claims on the codec *)

Lemma initial_requests_dom : dom initial_gate_requests = request_keys.
Proof.
  unfold initial_gate_requests, request_keys. rewrite !dom_insert_L. set_solver.
Qed.

(** A dictionary with the seven sensor keys is a [snapshot]. *)
Lemma sensor_keys_snapshot (ss : dict) :
  dict_keys ss = sensor_keys ->
  exists pf pm pb sa sb ma mb : bool, ss = snapshot pf pm pb sa sb ma mb.
Proof.
  unfold dict_keys, sensor_keys. intros Hk.
  do 7 (destruct ss as [|[? ?] ss]; [discriminate|]).
  destruct ss; [|discriminate].
  cbn [map fst] in Hk. injection Hk as -> -> -> -> -> -> ->.
  unfold snapshot. eauto 10.
Qed.

(** C8.  For every snapshot of the seven sensors and every pair of moving
    flags, the message is the seven pairs [KEY:V], with [V] one of [1] and
    [0], in the order PRESENCE_FRONT, PRESENCE_MIDDLE, PRESENCE_BACK,
    GATE_SAFETY_A, GATE_SAFETY_B, GATE_MOVING_A, GATE_MOVING_B, joined by
    commas between [<] and [>]; the two GATE_MOVING values are the gates'
    moving flags, not the entries of the snapshot.  The sensor dictionary of
    every state of a run is such a snapshot, and [send_data] sends this
    message for it. *)
Theorem telegram_format_and_key_order :
  (forall pf pm pb sa sb ma mb ga gb : bool,
     encode (snapshot pf pm pb sa sb ma mb) ga gb
     = telegram pf pm pb sa sb ga gb)
  /\ (forall s : @airlock Q,
        reachable s ->
        exists pf pm pb sa sb ma mb : bool,
          sensor_states s = snapshot pf pm pb sa sb ma mb
          /\ send_data true s
             = Some (telegram pf pm pb sa sb
                       (gate_moving (gate_a s)) (gate_moving (gate_b s)))).
Proof.
  assert (Henc : forall pf pm pb sa sb ma mb ga gb : bool,
             encode (snapshot pf pm pb sa sb ma mb) ga gb
             = telegram pf pm pb sa sb ga gb) by reflexivity.
  split; [exact Henc|].
  intros s Hr. apply reachable_inv in Hr.
  destruct Hr as (_ & _ & _ & _ & Hk & _).
  destruct (sensor_keys_snapshot _ Hk) as (pf & pm & pb & sa & sb & ma & mb & Hss).
  exists pf, pm, pb, sa, sb, ma, mb. split; [exact Hss|].
  unfold send_data. cbn [negb]. now rewrite Hss, Henc.
Qed.

Lemma telegram_format_and_key_order_witness :
  encode (snapshot true false false true false false true) true false
  = "<PRESENCE_FRONT:1,PRESENCE_MIDDLE:0,PRESENCE_BACK:0,GATE_SAFETY_A:1,GATE_SAFETY_B:0,GATE_MOVING_A:1,GATE_MOVING_B:0>".
Proof.
  exact (proj1 telegram_format_and_key_order
           true false false true false false true true false).
Defined.

(** C9.  For every dictionary of distinct keys that hold no separator, and
    for [self.gate_requests] with exactly the two recognized keys, decoding
    the encoded message returns without exception, and every recognized key
    that the dictionary holds comes out with the dictionary's value (a
    recognized key the dictionary does not hold keeps its request). *)
Theorem telegram_round_trip (ss : dict) (ga gb : bool)
    (requests : gmap string bool) :
  List.NoDup (dict_keys ss) ->
  Forall plain_key (dict_keys ss) ->
  dom requests = request_keys ->
  exists requests' : gmap string bool,
    (last_char (encode ss ga gb) <> None
     /\ startswith "<" (encode ss ga gb) && endswith ">" (encode ss ga gb) = true)
    /\ decode_pairs (encode ss ga gb) requests = Returns requests'
    /\ forall k : string,
         k ∈ request_keys ->
         requests' !! k
         = match dict_get k ss with
           | Some v => Some v
           | None => requests !! k
           end.
Proof.
  intros Hnd Hplain Hdom.
  exists (fold_left assign_known (sent_items ss ga gb) requests).
  destruct (encode_accepted ss ga gb) as (Hl & Hs & He).
  split; [split; [now rewrite Hl | now rewrite Hs, He]|].
  split; [now apply decode_encode_items|].
  intros k Hk.
  assert (Hsome : is_Some (requests !! k)) by (apply elem_of_dom; now rewrite Hdom).
  assert (Hab : k = "GATE_REQUEST_A" \/ k = "GATE_REQUEST_B").
  { unfold request_keys in Hk.
    apply elem_of_union in Hk as [Hk|Hk]; apply elem_of_singleton in Hk; auto. }
  assert (Ha : k <> "GATE_MOVING_A") by (destruct Hab; subst k; discriminate).
  assert (Hb : k <> "GATE_MOVING_B") by (destruct Hab; subst k; discriminate).
  destruct (decode_encode_lookup ss ga gb requests k Hnd Hplain Hsome Ha Hb)
    as (requests' & Hdec & Hlook).
  rewrite (decode_encode_items ss ga gb requests Hplain) in Hdec.
  injection Hdec as <-. exact Hlook.
Qed.

Lemma telegram_round_trip_witness :
  let ss := [("GATE_REQUEST_A", true); ("PRESENCE_FRONT", false)] in
  exists requests' : gmap string bool,
    decode_pairs (encode ss false false) initial_gate_requests = Returns requests'
    /\ requests' !! "GATE_REQUEST_A" = Some true.
Proof.
  intros ss.
  assert (Hnd : List.NoDup (dict_keys ss)).
  { repeat constructor; cbn; intuition discriminate. }
  assert (Hplain : Forall plain_key (dict_keys ss)).
  { repeat constructor. }
  destruct (telegram_round_trip ss false false initial_gate_requests
              Hnd Hplain initial_requests_dom)
    as (requests' & _ & Hdec & Hlook).
  exists requests'. split; [exact Hdec|].
  apply (Hlook "GATE_REQUEST_A"). unfold request_keys. set_solver.
Defined.

(** The program's own telegrams hold no recognized key: decoding one
    assigns nothing. *)
Lemma sensor_telegram_assigns_nothing (pf pm pb sa sb ma mb ga gb : bool)
    (requests : gmap string bool) :
  dom requests = request_keys ->
  decode_pairs (encode (snapshot pf pm pb sa sb ma mb) ga gb) requests
  = Returns requests.
Proof.
  intros Hdom.
  assert (Hnone : forall k : string, k ∉ request_keys -> requests !! k = None).
  { intros k Hk. apply not_elem_of_dom. now rewrite Hdom. }
  rewrite decode_encode_items by (repeat constructor).
  cbn [sent_items snapshot List.filter String.eqb Ascii.eqb Bool.eqb orb negb
       app fold_left].
  unfold assign_known. cbn [fst].
  rewrite !Hnone;
    solve [ reflexivity
          | unfold request_keys; intros Hk;
            apply elem_of_union in Hk as [Hk|Hk];
            apply elem_of_singleton in Hk; discriminate ].
Qed.

(** C2 fails on the code.  The empty line raises [IndexError] (at the print
    of [line[-1]]), a segment with two colons raises [ValueError] (at the
    tuple assignment), and a request assigned before the exception stays
    assigned while the gates are not processed. *)
Theorem inbound_line_raises (s : @airlock Q) :
  read_arduino_data "" s = Raises IndexError s
  /\ raised (read_arduino_data "<A:1:2>" s) = Some ValueError
  /\ (let o := read_arduino_data "<GATE_REQUEST_A:1,B:1:2>" (@initial Q _) in
      raised o = Some ValueError
      /\ gate_requests (state_of o) !! "GATE_REQUEST_A" = Some true
      /\ status_text (gate_a (state_of o)) = SEALED).
Proof.
  split; [reflexivity|]. split; [reflexivity|].
  cbv zeta. repeat split; vm_compute; reflexivity.
Qed.

(** What the decoder does tolerate: a line without the delimiters is left
    alone, and segments without a colon are skipped. *)
Lemma undelimited_line_ignored (line : string) (s : @airlock Q) :
  line <> EmptyString ->
  startswith "<" line && endswith ">" line = false ->
  read_arduino_data line s = Returns s.
Proof.
  intros Hne Hd. unfold read_arduino_data. rewrite Hd.
  destruct line as [|c r]; [congruence|].
  now destruct (last_char_nonempty c r) as [c' ->].
Qed.

Lemma parse_pairs_returns (pairs : list string) (requests : gmap string bool) :
  Forall (fun item => contains ":" item = true ->
                      exists name value, split ":" item = [name; value]) pairs ->
  raised (parse_pairs pairs requests) = None.
Proof.
  revert requests. induction pairs as [|item rest IH]; intros requests Hall.
  - reflexivity.
  - inversion Hall as [|? ? Hitem Hrest]; subst. cbn [parse_pairs].
    destruct (contains ":" item); [|now apply IH].
    destruct (Hitem eq_refl) as (name & value & ->).
    destruct (requests !! name); now apply IH.
Qed.

Lemma malformed_examples_tolerated :
  read_arduino_data "garbage" (@initial Q _) = Returns initial
  /\ read_arduino_data "<no_colon_here>" (@initial Q _) = Returns initial
  /\ read_arduino_data "<A:1,B>" (@initial Q _) = Returns initial.
Proof. repeat split; vm_compute; reflexivity. Qed.

End Codec.

(** * Further properties of the code *)

(** ** Sensors *)

Section MoreSensors.
Local Open Scope Q_scope.

(** Neither a tick nor a line touches the rover or the five entries that
    [update_sensors] assigns. *)
Lemma animate_gates_frame (s : @airlock Q) (k : string) :
  k <> "GATE_MOVING_A" -> k <> "GATE_MOVING_B" ->
  rover_x (animate_gates s) = rover_x s
  /\ gate_requests (animate_gates s) = gate_requests s
  /\ dict_get k (sensor_states (animate_gates s)) = dict_get k (sensor_states s).
Proof.
  intros Ha Hb. unfold animate_gates.
  pose proof (animate_gate_other "GATE_MOVING_A" k (gate_a s) (sensor_states s) Ha) as Oa.
  destruct (animate_gate "GATE_MOVING_A" (gate_a s) (sensor_states s)) as [ga ss1].
  pose proof (animate_gate_other "GATE_MOVING_B" k (gate_b s) ss1 Hb) as Ob.
  destruct (animate_gate "GATE_MOVING_B" (gate_b s) ss1) as [gb ss2].
  cbn [fst snd rover_x gate_requests sensor_states] in *.
  repeat split. now rewrite Ob.
Qed.

Lemma process_gate_requests_frame (s : @airlock Q) (k : string) :
  k <> "GATE_MOVING_A" -> k <> "GATE_MOVING_B" ->
  rover_x (state_of (process_gate_requests s)) = rover_x s
  /\ gate_requests (state_of (process_gate_requests s)) = gate_requests s
  /\ dict_get k (sensor_states (state_of (process_gate_requests s)))
     = dict_get k (sensor_states s).
Proof.
  intros Ha Hb. unfold process_gate_requests.
  destruct (gate_requests s !! "GATE_REQUEST_A") as [ra|]; [|now repeat split].
  destruct (gate_requests s !! "GATE_REQUEST_B") as [rb|]; [|now repeat split].
  pose proof (process_gate_request_other "GATE_MOVING_A" k ra (gate_a s)
                (sensor_states s) Ha) as Oa.
  destruct (process_gate_request "GATE_MOVING_A" ra (gate_a s) (sensor_states s))
    as [ga ss1].
  pose proof (process_gate_request_other "GATE_MOVING_B" k rb (gate_b s) ss1 Hb) as Ob.
  destruct (process_gate_request "GATE_MOVING_B" rb (gate_b s) ss1) as [gb ss2].
  cbn [fst snd state_of rover_x gate_requests sensor_states] in *.
  repeat split. now rewrite Ob.
Qed.

Lemma read_arduino_data_frame (line : string) (s : @airlock Q) (k : string) :
  k <> "GATE_MOVING_A" -> k <> "GATE_MOVING_B" ->
  rover_x (state_of (read_arduino_data line s)) = rover_x s
  /\ dict_get k (sensor_states (state_of (read_arduino_data line s)))
     = dict_get k (sensor_states s).
Proof.
  intros Ha Hb. unfold read_arduino_data.
  destruct (last_char line); [|now split].
  destruct (startswith "<" line && endswith ">" line); [|now split].
  destruct (decode_pairs line (gate_requests s)) as [requests|e requests];
    [|now split].
  destruct (process_gate_requests_frame (with_requests s requests) k Ha Hb)
    as (Hx & _ & Hk).
  split; [exact Hx | exact Hk].
Qed.

Lemma initial_fresh : sensors_fresh initial.
Proof. repeat split. Qed.

Lemma reachable_fresh (s : @airlock Q) : reachable s -> sensors_fresh s.
Proof.
  induction 1 as [|s e _ IH]; [exact initial_fresh|].
  destruct e as [|line|new_x|k]; cbn [step].
  - destruct IH as (H1 & H2 & H3 & H4 & H5). unfold sensors_fresh. cbv zeta.
    destruct (animate_gates_frame s "PRESENCE_FRONT") as (-> & _ & ->); try discriminate.
    destruct (animate_gates_frame s "PRESENCE_MIDDLE") as (_ & _ & ->); try discriminate.
    destruct (animate_gates_frame s "PRESENCE_BACK") as (_ & _ & ->); try discriminate.
    destruct (animate_gates_frame s "GATE_SAFETY_A") as (_ & _ & ->); try discriminate.
    destruct (animate_gates_frame s "GATE_SAFETY_B") as (_ & _ & ->); try discriminate.
    now repeat split.
  - destruct IH as (H1 & H2 & H3 & H4 & H5). unfold sensors_fresh. cbv zeta.
    destruct (read_arduino_data_frame line s "PRESENCE_FRONT") as (-> & ->); try discriminate.
    destruct (read_arduino_data_frame line s "PRESENCE_MIDDLE") as (_ & ->); try discriminate.
    destruct (read_arduino_data_frame line s "PRESENCE_BACK") as (_ & ->); try discriminate.
    destruct (read_arduino_data_frame line s "GATE_SAFETY_A") as (_ & ->); try discriminate.
    destruct (read_arduino_data_frame line s "GATE_SAFETY_B") as (_ & ->); try discriminate.
    now repeat split.
  - apply (update_sensors_entries
             {| rover_x := new_x; gate_a := gate_a s; gate_b := gate_b s;
                sensor_states := sensor_states s;
                gate_requests := gate_requests s |}).
  - unfold on_key_press. cbv zeta.
    match goal with
    | |- sensors_fresh (on_canvas_drag ?x s) =>
        apply (update_sensors_entries
                 {| rover_x := x; gate_a := gate_a s; gate_b := gate_b s;
                    sensor_states := sensor_states s;
                    gate_requests := gate_requests s |})
    end.
Qed.

(** X1.  In every state of a run, the three presence entries and the two
    safety entries of the sensor dictionary are the values that the current
    rover position gives: no call leaves them stale. *)
Theorem sensors_never_stale (s : @airlock Q) :
  reachable s ->
  let ss := sensor_states s in
  let x := rover_x s in
  (active ss "PRESENCE_FRONT"
   <-> x - rover_width / 2 <= front_sensor_x /\ front_sensor_x <= x + rover_width / 2)
  /\ (active ss "PRESENCE_MIDDLE"
      <-> x - rover_width / 2 <= middle_sensor_x /\ middle_sensor_x <= x + rover_width / 2)
  /\ (active ss "PRESENCE_BACK"
      <-> x - rover_width / 2 <= back_sensor_x /\ back_sensor_x <= x + rover_width / 2)
  /\ (active ss "GATE_SAFETY_A"
      <-> x + rover_width / 2 > gate_a_pos - 60 / 2
          /\ x - rover_width / 2 < gate_a_pos + 60 / 2)
  /\ (active ss "GATE_SAFETY_B"
      <-> x + rover_width / 2 > gate_b_pos - 60 / 2
          /\ x - rover_width / 2 < gate_b_pos + 60 / 2).
Proof.
  intros Hr. destruct (reachable_fresh s Hr) as (H1 & H2 & H3 & H4 & H5).
  cbv zeta. unfold active. rewrite H1, H2, H3, H4, H5.
  rewrite <- !presence_spec, <- !gate_safety_spec.
  repeat split; congruence.
Qed.

Lemma sensors_never_stale_witness :
  let s := run (@initial Q _) [Drag 202; Tick; Key Right] in
  reachable s
  /\ (active (sensor_states s) "PRESENCE_FRONT"
      <-> rover_x s - rover_width / 2 <= front_sensor_x
          /\ front_sensor_x <= rover_x s + rover_width / 2).
Proof.
  intros s.
  assert (Hr : reachable s) by (apply reachable_run; constructor).
  split; [exact Hr|].
  exact (proj1 (sensors_never_stale s Hr)).
Defined.

(** The windows of rover positions in which each sensor is on, in
    numerals. *)
Lemma presence_front_window (x : Q) :
  presence front_sensor_x x = true <-> 1382 # 10 <= x /\ x <= 2658 # 10.
Proof.
  unfold presence. rewrite andb_true_iff, !fleb_le. exact_arith. split; lra.
Qed.

Lemma presence_middle_window (x : Q) :
  presence middle_sensor_x x = true <-> 3802 # 10 <= x /\ x <= 5078 # 10.
Proof.
  unfold presence. rewrite andb_true_iff, !fleb_le. exact_arith. split; lra.
Qed.

Lemma presence_back_window (x : Q) :
  presence back_sensor_x x = true <-> 6222 # 10 <= x /\ x <= 7498 # 10.
Proof.
  unfold presence. rewrite andb_true_iff, !fleb_le. exact_arith. split; lra.
Qed.

Lemma gate_safety_a_window (x : Q) :
  gate_safety gate_a_pos x = true <-> 2102 # 10 < x /\ x < 3978 # 10.
Proof.
  unfold gate_safety. rewrite andb_true_iff, !fltb_lt. exact_arith. split; lra.
Qed.

Lemma gate_safety_b_window (x : Q) :
  gate_safety gate_b_pos x = true <-> 4902 # 10 < x /\ x < 6778 # 10.
Proof.
  unfold gate_safety. rewrite andb_true_iff, !fltb_lt. exact_arith. split; lra.
Qed.

(** The entries after a move, as windows. *)
Lemma dragged_windows (s : @airlock Q) (x : Q) :
  let ss := sensor_states (on_canvas_drag x s) in
  (active ss "PRESENCE_FRONT" <-> 1382 # 10 <= x /\ x <= 2658 # 10)
  /\ (active ss "PRESENCE_MIDDLE" <-> 3802 # 10 <= x /\ x <= 5078 # 10)
  /\ (active ss "PRESENCE_BACK" <-> 6222 # 10 <= x /\ x <= 7498 # 10)
  /\ (active ss "GATE_SAFETY_A" <-> 2102 # 10 < x /\ x < 3978 # 10)
  /\ (active ss "GATE_SAFETY_B" <-> 4902 # 10 < x /\ x < 6778 # 10).
Proof.
  cbv zeta. unfold on_canvas_drag, active.
  destruct (update_sensors_entries
              {| rover_x := x; gate_a := gate_a s; gate_b := gate_b s;
                 sensor_states := sensor_states s;
                 gate_requests := gate_requests s |})
    as (H1 & H2 & H3 & H4 & H5).
  cbn [rover_x] in *. rewrite H1, H2, H3, H4, H5.
  rewrite <- presence_front_window, <- presence_middle_window,
    <- presence_back_window, <- gate_safety_a_window, <- gate_safety_b_window.
  repeat split; congruence.
Qed.

(** X2.  Wherever the rover is moved, at most one of the three presence
    sensors is on: the sensor lines are farther apart than the rover is
    wide. *)
Theorem presence_sensors_exclusive (s : @airlock Q) (x : Q) :
  let ss := sensor_states (on_canvas_drag x s) in
  ~ (active ss "PRESENCE_FRONT" /\ active ss "PRESENCE_MIDDLE")
  /\ ~ (active ss "PRESENCE_MIDDLE" /\ active ss "PRESENCE_BACK")
  /\ ~ (active ss "PRESENCE_FRONT" /\ active ss "PRESENCE_BACK").
Proof.
  destruct (dragged_windows s x) as (H1 & H2 & H3 & _ & _). cbv zeta.
  rewrite H1, H2, H3. repeat split; intros [Ha Hb]; lra.
Qed.

(** X3.  Wherever the rover is moved, the safety sensors of the two gates
    are never on together: the rover cannot reach into both safety zones. *)
Theorem safety_sensors_exclusive (s : @airlock Q) (x : Q) :
  let ss := sensor_states (on_canvas_drag x s) in
  ~ (active ss "GATE_SAFETY_A" /\ active ss "GATE_SAFETY_B").
Proof.
  destruct (dragged_windows s x) as (_ & _ & _ & H4 & H5). cbv zeta.
  rewrite H4, H5. intros [Ha Hb]. lra.
Qed.

(** X4.  After a move to [x], none of the five sensors is on exactly when
    [x] is below 138.2 or above 749.8: between these positions the windows
    of the sensors overlap and leave no blind spot. *)
Theorem sensors_leave_no_blind_spot (s : @airlock Q) (x : Q) :
  let ss := sensor_states (on_canvas_drag x s) in
  (~ active ss "PRESENCE_FRONT" /\ ~ active ss "PRESENCE_MIDDLE"
   /\ ~ active ss "PRESENCE_BACK" /\ ~ active ss "GATE_SAFETY_A"
   /\ ~ active ss "GATE_SAFETY_B")
  <-> (x < 1382 # 10 \/ 7498 # 10 < x).
Proof.
  destruct (dragged_windows s x) as (H1 & H2 & H3 & H4 & H5). cbv zeta.
  rewrite H1, H2, H3, H4, H5. split.
  - intros (N1 & N2 & N3 & N4 & N5).
    destruct (Qlt_le_dec x (1382 # 10)) as [Hlo|Hlo]; [now left|].
    destruct (Qlt_le_dec (7498 # 10) x) as [Hhi|Hhi]; [now right|].
    exfalso.
    destruct (Qlt_le_dec (2102 # 10) x) as [Ha|Ha]; [|apply N1; lra].
    destruct (Qlt_le_dec x (3978 # 10)) as [Hb|Hb]; [apply N4; lra|].
    destruct (Qlt_le_dec (4902 # 10) x) as [Hc|Hc]; [|apply N2; lra].
    destruct (Qlt_le_dec x (6778 # 10)) as [Hd|Hd]; [apply N5; lra|].
    apply N3; lra.
  - intros [Hlo|Hhi]; repeat split; intros [Ha Hb]; lra.
Qed.

End MoreSensors.

(** ** Lines and requests *)

Section MoreLines.

(** The parsing loop is the run of its assignments. *)
Lemma parse_pairs_parsed (pairs : list string) (requests : gmap string bool) :
  parse_pairs pairs requests
  = match snd (parsed_items pairs) with
    | None => Returns (fold_left assign_known (fst (parsed_items pairs)) requests)
    | Some e => Raises e (fold_left assign_known (fst (parsed_items pairs)) requests)
    end.
Proof.
  revert requests. induction pairs as [|item rest IH]; intros requests.
  - reflexivity.
  - cbn [parse_pairs parsed_items].
    destruct (contains ":" item); [|apply IH].
    destruct (split ":" item) as [|name [|value [|? ?]]]; try reflexivity.
    destruct (parsed_items rest) as [items e] eqn:Ep.
    cbn [fst snd fold_left] in *.
    assert (Ha : assign_known requests (name, String.eqb value "1")
                 = match requests !! name with
                   | Some _ => <[name := String.eqb value "1"]> requests
                   | None => requests
                   end) by reflexivity.
    rewrite Ha. destruct (requests !! name); apply IH.
Qed.

Lemma fold_assign_last (items : list (string * bool))
    (requests : gmap string bool) (k : string) :
  fold_left assign_known items requests !! k
  = match requests !! k with
    | None => None
    | Some w => Some (default w (last_assigned k items))
    end.
Proof.
  revert requests. induction items as [|[name v] rest IH]; intros requests.
  - cbn. now destruct (requests !! k).
  - cbn [fold_left last_assigned]. rewrite IH. unfold assign_known. cbn [fst snd].
    destruct (String.eqb name k) eqn:E.
    + apply String.eqb_eq in E. subst name.
      destruct (requests !! k) as [w|] eqn:Ek.
      * rewrite lookup_insert_eq. now destruct (last_assigned k rest).
      * now rewrite Ek.
    + apply String.eqb_neq in E.
      destruct (requests !! name).
      * rewrite lookup_insert_ne by exact E.
        destruct (requests !! k); [|reflexivity].
        now destruct (last_assigned k rest).
      * destruct (requests !! k); [|reflexivity].
        now destruct (last_assigned k rest).
Qed.

Lemma fold_assign_twice (items : list (string * bool)) (requests : gmap string bool) :
  fold_left assign_known items (fold_left assign_known items requests)
  = fold_left assign_known items requests.
Proof.
  apply map_eq. intros k. rewrite !fold_assign_last.
  destruct (requests !! k) as [w|]; [|reflexivity].
  now destruct (last_assigned k items).
Qed.

Lemma parse_pairs_twice (pairs : list string) (requests : gmap string bool) :
  parse_pairs pairs (state_of (parse_pairs pairs requests))
  = parse_pairs pairs requests.
Proof.
  rewrite !parse_pairs_parsed.
  destruct (snd (parsed_items pairs)); cbn [state_of]; now rewrite fold_assign_twice.
Qed.

(** X6.  Last write wins, and no key is added: after the parsing loop, a
    key that [self.gate_requests] did not hold is still absent, and a key
    it held has the value of the last segment that names it (among the
    segments reached before an exception), or its old value when no
    segment names it. *)
Theorem parsing_last_write_wins (pairs : list string)
    (requests : gmap string bool) (k : string) :
  state_of (parse_pairs pairs requests) !! k
  = match requests !! k with
    | None => None
    | Some w => Some (default w (last_assigned k (fst (parsed_items pairs))))
    end.
Proof.
  rewrite parse_pairs_parsed.
  destruct (snd (parsed_items pairs)); cbn [state_of]; apply fold_assign_last.
Qed.

(** *** When a line raises *)

Lemma contains_colons (s : string) :
  contains ":" s = negb (Nat.eqb (colons s) 0).
Proof.
  induction s as [|c r IH]; [reflexivity|].
  cbn [contains colons]. destruct (Ascii.eqb c ":"); [reflexivity | exact IH].
Qed.

Lemma split_colons (s : string) : length (split ":" s) = S (colons s).
Proof.
  induction s as [|c r IH]; [reflexivity|].
  cbn [split colons]. destruct (Ascii.eqb c ":"); cbn [length].
  - now rewrite IH.
  - destruct (split ":" r) as [|h t]; [discriminate IH | exact IH].
Qed.

Lemma parsed_items_exception (pairs : list string) :
  snd (parsed_items pairs)
  = if existsb (fun item => Nat.leb 2 (colons item)) pairs
    then Some ValueError else None.
Proof.
  induction pairs as [|item rest IH]; [reflexivity|].
  cbn [parsed_items existsb].
  rewrite contains_colons. pose proof (split_colons item) as Hlen.
  destruct (colons item) as [|[|n]]; cbn [Nat.eqb negb Nat.leb orb].
  - exact IH.
  - destruct (split ":" item) as [|name [|value [|? ?]]]; try discriminate Hlen.
    destruct (parsed_items rest) as [items e]. exact IH.
  - destruct (split ":" item) as [|name [|value [|? ?]]]; try discriminate Hlen.
    reflexivity.
Qed.

(** In a run, a decoded line ends in an exception exactly as the line alone
    decides: [IndexError] for the empty line, [ValueError] for a delimited
    line with a segment of two or more colons, and no exception otherwise;
    in particular the lookups of [process_gate_requests] never raise
    [KeyError]. *)
Lemma decoded_line_exceptions (line : string) (s : @airlock Q) :
  reachable s ->
  raised (read_arduino_data line s) = expected_exception line.
Proof.
  intros Hr. apply reachable_inv in Hr.
  destruct Hr as (_ & _ & _ & _ & _ & Hd).
  unfold read_arduino_data, expected_exception.
  destruct line as [|c r]; [reflexivity|].
  destruct (last_char_nonempty c r) as [c' ->].
  destruct (startswith "<" (String c r) && endswith ">" (String c r));
    [|reflexivity].
  cbn [andb]. unfold decode_pairs.
  pose proof (parse_pairs_dom (split "," (strip_delimiters (String c r)))
                (gate_requests s)) as Hdom.
  rewrite parse_pairs_parsed in *.
  rewrite parsed_items_exception in *. revert Hdom.
  destruct (existsb _ _); [reflexivity|]. intros Hdom.
  cbn [state_of] in Hdom.
  match goal with
  | |- raised (process_gate_requests ?t) = None =>
      destruct (process_gate_requests_returns t) as (ra & rb & _ & _ & ->);
        [cbn [with_requests gate_requests]; now rewrite Hdom | reflexivity]
  end.
Qed.

(** A byte of ASCII white space is a character of its own, and one that
    [strip] removes. *)
Lemma blank_byte (b : ascii) :
  byte_in 9 13 b || byte_in 28 32 b = true ->
  byte_in 0 127 b = true /\ isspace (String b EmptyString) = true.
Proof.
  destruct b as [[|] [|] [|] [|] [|] [|] [|] [|]]; vm_compute;
    intros Hb; try discriminate Hb; split; reflexivity.
Qed.

Lemma lstrip_spaces (chars : list string) :
  Forall (fun c => isspace c = true) chars -> lstrip chars = [].
Proof.
  induction 1 as [|c rest Hc _ IH]; [reflexivity|].
  cbn [lstrip]. now rewrite Hc.
Qed.

(** A blank line decodes, and nothing of it is left after [strip]. *)
Lemma decode_strip_blank (raw : string) :
  blank raw -> decode_strip raw = Some EmptyString.
Proof.
  intros Hb.
  assert (Hd : exists chars : list string,
             decode raw = Some chars
             /\ Forall (fun c => isspace c = true) chars).
  { unfold blank in Hb. induction raw as [|b r IH].
    - exists []. split; [reflexivity|constructor].
    - cbn [list_ascii_of_string] in Hb. apply Forall_cons in Hb as [Hb Hr].
      destruct (blank_byte b Hb) as [Hascii Hspace].
      destruct (IH Hr) as (chars & Hdec & Hchars).
      exists (String b EmptyString :: chars). cbn [decode].
      rewrite Hascii, Hdec. split; [reflexivity|]. now constructor. }
  destruct Hd as (chars & Hd & Hchars).
  unfold decode_strip, strip. rewrite Hd. cbn [option_map].
  now rewrite (lstrip_spaces chars Hchars).
Qed.

(** X7.  In a run, which exception [read_arduino_data] ends in, from the
    bytes that [readline] returned up to the last lookup of
    [process_gate_requests], is decided by the bytes alone:
    [UnicodeDecodeError] for bytes that are not well-formed UTF-8,
    [IndexError] when nothing is left of the line after [strip],
    [ValueError] for a delimited line with a segment of two or more colons,
    and none of these otherwise; [KeyError] is never raised.  A blank line
    (white space only, as the CR LF of an empty [println]) raises
    [IndexError]. *)
Theorem line_exceptions_characterized (raw : string) (s : @airlock Q) :
  reachable s ->
  raised (read_arduino_data_of_bytes raw s) = expected_exception_of_bytes raw
  /\ raised (read_arduino_data_of_bytes raw s) <> Some KeyError
  /\ (blank raw -> raised (read_arduino_data_of_bytes raw s) = Some IndexError).
Proof.
  intros Hr.
  assert (Hmain : raised (read_arduino_data_of_bytes raw s)
                  = expected_exception_of_bytes raw).
  { unfold read_arduino_data_of_bytes, expected_exception_of_bytes.
    destruct (decode_strip raw) as [line|]; [|reflexivity].
    now apply decoded_line_exceptions. }
  split; [exact Hmain|]. split.
  - rewrite Hmain. unfold expected_exception_of_bytes.
    destruct (decode_strip raw) as [line|]; [|discriminate].
    unfold expected_exception. destruct line; [discriminate|].
    now destruct (_ && _).
  - intros Hb. rewrite Hmain. unfold expected_exception_of_bytes.
    now rewrite (decode_strip_blank raw Hb).
Qed.

Lemma line_exceptions_characterized_witness :
  let s := run (@initial Q _) (open_cycle 3) in
  raised (read_arduino_data_of_bytes
            (String (ascii_of_nat 255) "<GATE_REQUEST_A:1>") s)
  = Some UnicodeDecodeError.
Proof.
  intros s.
  assert (Hr : reachable s) by (apply reachable_run; constructor).
  exact (proj1 (line_exceptions_characterized
                  (String (ascii_of_nat 255) "<GATE_REQUEST_A:1>") s Hr)).
Defined.

(** X8.  In a run, [self.gate_requests] holds exactly the two request keys:
    no line adds a key or removes one. *)
Theorem request_keys_fixed (s : @airlock Q) (k : string) :
  reachable s ->
  is_Some (gate_requests s !! k) <-> k = "GATE_REQUEST_A" \/ k = "GATE_REQUEST_B".
Proof.
  intros Hr. apply reachable_inv in Hr.
  destruct Hr as (_ & _ & _ & _ & _ & Hd).
  rewrite <- elem_of_dom, Hd. unfold request_keys.
  rewrite elem_of_union, !elem_of_singleton. reflexivity.
Qed.

Lemma request_keys_fixed_witness :
  let s := run (@initial Q _) [Line "<PRESENCE_FRONT:1,GATE_REQUEST_C:1>"] in
  is_Some (gate_requests s !! "GATE_REQUEST_C")
  <-> "GATE_REQUEST_C" = "GATE_REQUEST_A" \/ "GATE_REQUEST_C" = "GATE_REQUEST_B".
Proof.
  intros s.
  assert (Hr : reachable s) by (apply reachable_run; constructor).
  exact (request_keys_fixed s "GATE_REQUEST_C" Hr).
Defined.

(** *** Values other than 1 *)

Lemma string_append_assoc (a b c : string) : (a +:+ b) +:+ c = a +:+ (b +:+ c).
Proof.
  induction a as [|x a IH]; [reflexivity|].
  rewrite !append_cons. now rewrite IH.
Qed.

(** A line with the one pair [key:value], both free of separators. *)
Lemma decode_single_pair (key value : string) (requests : gmap string bool) :
  plain_key key -> plain_key value ->
  decode_pairs ("<" +:+ key +:+ ":" +:+ value +:+ ">") requests
  = Returns (assign_known requests (key, String.eqb value "1")).
Proof.
  intros [Hkc Hkk] [Hvc Hvk]. unfold decode_pairs.
  change ("<" +:+ ?x) with (String "<" x). cbn [strip_delimiters].
  change (":" +:+ ?x) with (String ":" x).
  assert (Hbody : key +:+ String ":" (value +:+ ">")
                  = (key +:+ String ":" value) +:+ ">").
  { rewrite string_append_assoc. reflexivity. }
  rewrite Hbody, drop_last_append.
  assert (Hcomma : contains "," (key +:+ String ":" value) = false).
  { rewrite contains_append, Hkc. cbn [contains orb]. exact Hvc. }
  rewrite (split_plain _ _ Hcomma). cbn [parse_pairs].
  assert (Hcolon : contains ":" (key +:+ String ":" value) = true).
  { rewrite contains_append. cbn [contains]. now rewrite Ascii.eqb_refl, orb_true_r. }
  rewrite Hcolon, (split_append _ _ _ Hkk), (split_plain _ _ Hvk).
  unfold assign_known. cbn [fst snd]. now destruct (requests !! key).
Qed.

(** X9.  In a run, a request line whose value is anything but the one
    character [1] (and holds no separator) is taken without exception as a
    request to close: it stores [False] for the gate. *)
Theorem other_values_mean_close (n : gate_name) (value : string) (s : @airlock Q) :
  reachable s ->
  plain_key value ->
  value <> "1" ->
  let o := read_arduino_data ("<" +:+ request_key n +:+ ":" +:+ value +:+ ">") s in
  raised o = None
  /\ gate_requests (state_of o) !! request_key n = Some false.
Proof.
  intros Hr Hv Hne. cbv zeta. apply reachable_inv in Hr.
  destruct Hr as (_ & _ & _ & _ & _ & Hd).
  assert (Hkey : plain_key (request_key n)) by (now destruct n).
  assert (Hk : is_Some (gate_requests s !! request_key n)).
  { apply elem_of_dom. rewrite Hd. unfold request_keys.
    rewrite elem_of_union, !elem_of_singleton. destruct n; auto. }
  unfold read_arduino_data.
  rewrite (decode_single_pair _ _ (gate_requests s) Hkey Hv).
  assert (Hlast : last_char ("<" +:+ request_key n +:+ ":" +:+ value +:+ ">")
                  = Some ">"%char).
  { rewrite <- !string_append_assoc. apply last_char_append. }
  unfold endswith. rewrite Hlast.
  change (startswith "<" ("<" +:+ ?x)) with true. cbn [andb Ascii.eqb Bool.eqb].
  apply String.eqb_neq in Hne. rewrite Hne.
  unfold assign_known. cbn [fst snd]. destruct Hk as [w Hw]. rewrite Hw.
  match goal with
  | |- context [process_gate_requests ?t] =>
      pose proof (process_gate_requests_requests t) as Hreq;
      destruct (process_gate_requests_returns t) as (ra & rb & _ & _ & Hret)
  end.
  - cbn [with_requests gate_requests]. rewrite <- Hd.
    apply dom_insert_lookup_L. now rewrite Hw.
  - rewrite Hret in *. cbn [state_of raised] in *. split; [reflexivity|].
    rewrite Hreq. cbn [with_requests gate_requests]. apply lookup_insert_eq.
Qed.

Lemma other_values_mean_close_witness :
  let s := run (@initial Q _) (open_cycle 3) in
  let o := read_arduino_data ("<" +:+ request_key GateA +:+ ":" +:+ "true" +:+ ">") s in
  raised o = None
  /\ gate_requests (state_of o) !! request_key GateA = Some false.
Proof.
  intros s.
  assert (Hr : reachable s) by (apply reachable_run; constructor).
  assert (Hv : plain_key "true") by (split; reflexivity).
  assert (Hne : "true" <> "1") by discriminate.
  exact (other_values_mean_close GateA "true" s Hr Hv Hne).
Defined.

End MoreLines.

Section MoreRequests.
Context {F : Type} `{PyNum F}.

(** X5.  A line received twice in a row has no more effect than received
    once: the second reading ends as the first did, in the same state (a
    gate that the first reading started is not restarted).  The same holds
    of [process_gate_requests] called twice. *)
Theorem repeated_line_changes_nothing (line : string) (s : @airlock F) :
  read_arduino_data line (state_of (read_arduino_data line s))
  = read_arduino_data line s
  /\ process_gate_requests (state_of (process_gate_requests s))
     = process_gate_requests s.
Proof.
  split; [|apply process_gate_requests_twice].
  unfold read_arduino_data.
  destruct (last_char line); [|reflexivity].
  destruct (startswith "<" line && endswith ">" line); [|reflexivity].
  unfold decode_pairs.
  pose proof (parse_pairs_twice (split "," (strip_delimiters line)) (gate_requests s))
    as Htwice.
  destruct (parse_pairs (split "," (strip_delimiters line)) (gate_requests s))
    as [r1|e r1]; cbn [state_of] in *.
  - rewrite process_gate_requests_requests. cbn [with_requests gate_requests].
    rewrite Htwice.
    rewrite <- (process_gate_requests_requests (with_requests s r1)) at 2.
    rewrite with_requests_same. apply process_gate_requests_twice.
  - cbn [with_requests gate_requests]. rewrite Htwice. reflexivity.
Qed.

End MoreRequests.

(** ** Gate motion over several ticks *)

Section MoreGates.
Local Open Scope Q_scope.

Lemma animate_gate_fst (k k' : string) (g : @gate Q) (ss ss' : dict) :
  fst (animate_gate k g ss) = fst (animate_gate k' g ss').
Proof.
  unfold animate_gate. cbv zeta.
  destruct (gate_moving g); [|reflexivity].
  destruct (gate_target_state g); cbn [negb];
    match goal with
    | |- context [if fleb ?a ?b then _ else _] => destruct (fleb a b)
    end; reflexivity.
Qed.

Lemma animate_gates_tick (n : gate_name) (s : @airlock Q) :
  gate_of n (animate_gates s) = tick_gate (gate_of n s).
Proof.
  destruct (animate_gates_gate n s) as [ss ->]. apply animate_gate_fst.
Qed.

Lemma run_ticks (s : @airlock Q) (k : nat) :
  run s (repeat Tick k) = Nat.iter k animate_gates s.
Proof.
  revert s. induction k as [|k IH]; intros s; [reflexivity|].
  cbn [repeat run fold_left step]. fold (run (animate_gates s) (repeat Tick k)).
  rewrite IH. symmetry. apply Nat.iter_succ_r.
Qed.

Lemma run_ticks_gate (n : gate_name) (s : @airlock Q) (k : nat) :
  gate_of n (run s (repeat Tick k)) = Nat.iter k tick_gate (gate_of n s).
Proof.
  rewrite run_ticks. induction k as [|k IH]; [reflexivity|].
  rewrite !Nat.iter_succ. now rewrite animate_gates_tick, IH.
Qed.

Lemma tick_gate_rest (g : @gate Q) : gate_moving g = false -> tick_gate g = g.
Proof. intros Hm. unfold tick_gate, animate_gate. now rewrite Hm. Qed.

(** One tick on a moving gate: it completes, or it goes on. *)
Lemma tick_gate_cases (g : @gate Q) :
  gate_moving g = true ->
  let g' := tick_gate g in
  (gate_moving g' = false
   /\ gate_open g' = gate_target_state g
   /\ gate_target_state g' = gate_target_state g
   /\ gate_animation_progress g' = (if gate_target_state g then 1 else 0)
   /\ gate_animation_time g' = 0
   /\ 3 <= gate_animation_time g + (1 # 10))
  \/ (gate_moving g' = true
      /\ gate_open g' = gate_open g
      /\ gate_target_state g' = gate_target_state g
      /\ gate_animation_progress g'
         = (if gate_target_state g
            then (gate_animation_time g + dt) / gate_animation_duration
            else 1 - (gate_animation_time g + dt) / gate_animation_duration)
      /\ gate_animation_time g' = gate_animation_time g + dt
      /\ gate_animation_time g + (1 # 10) < 3).
Proof.
  intros Hm. cbv zeta. unfold tick_gate, animate_gate. rewrite Hm. cbv zeta.
  destruct (py_min_cases
              ((gate_animation_time g + dt) / gate_animation_duration)%num
              (of_Z 1))
    as [[Hle ->]|[Hlt ->]];
  destruct (gate_target_state g) eqn:Et; cbn [negb];
  match goal with
  | |- context [if fleb ?a ?b then _ else _] => destruct (fleb a b) eqn:Ec
  end;
  cbn [fst gate_moving gate_open gate_target_state gate_animation_progress
       gate_animation_time];
  exact_order;
  first [ left; repeat split; try assumption; try reflexivity;
          exact_arith; lra
        | right; repeat split; try assumption; try reflexivity;
          exact_arith; lra ].
Qed.

(** [k] ticks on a moving gate: it is still moving, [k] tenths of a second
    later and short of the duration, or it has come to rest at its target,
    which takes the rest of the duration. *)
Lemma ticks_gate_cases (k : nat) (g : @gate Q) :
  gate_moving g = true ->
  let gk := Nat.iter k tick_gate g in
  (gate_moving gk = true
   /\ gate_open gk = gate_open g
   /\ gate_target_state gk = gate_target_state g
   /\ gate_animation_time gk == gate_animation_time g + inject_Z (Z.of_nat k) * (1 # 10)
   /\ (k = O \/ gate_animation_time gk < 3))
  \/ (gate_moving gk = false
      /\ gate_open gk = gate_target_state g
      /\ gate_target_state gk = gate_target_state g
      /\ gate_animation_progress gk = (if gate_target_state g then 1 else 0)
      /\ gate_animation_time gk = 0
      /\ 3 <= gate_animation_time g + inject_Z (Z.of_nat k) * (1 # 10)).
Proof.
  intros Hm. cbv zeta. induction k as [|k IH].
  - left. change (Nat.iter 0 tick_gate g) with g.
    repeat split; try assumption; try reflexivity.
    + change (inject_Z (Z.of_nat 0)) with 0. lra.
    + now left.
  - rewrite Nat.iter_succ.
    assert (Hk : inject_Z (Z.of_nat (S k)) == inject_Z (Z.of_nat k) + 1).
    { rewrite Nat2Z.inj_succ, <- Z.add_1_r, inject_Z_plus. reflexivity. }
    assert (Hpos : 0 <= inject_Z (Z.of_nat k)).
    { change 0 with (inject_Z 0). rewrite <- Zle_Qle. apply Nat2Z.is_nonneg. }
    destruct IH as [(M & O & T & Ht & Hlt)|(M & O & T & P & Ht & Hge)].
    + destruct (tick_gate_cases _ M) as [(M' & O' & T' & P' & Ht' & Hge')
                                        |(M' & O' & T' & P' & Ht' & Hlt')].
      * right. rewrite T in *. repeat split; try assumption.
        rewrite Hk. rewrite Ht in Hge'. lra.
      * left. rewrite T in *. repeat split; try congruence.
        -- rewrite Ht', Hk, Ht. exact_arith. lra.
        -- right. rewrite Ht'. exact_arith. lra.
    + right. rewrite (tick_gate_rest _ M). repeat split; try assumption.
      rewrite Hk. lra.
Qed.

Lemma ticks_gate_rest (k : nat) (g : @gate Q) :
  gate_moving g = false -> Nat.iter k tick_gate g = g.
Proof.
  intros Hm. induction k as [|k IH]; [reflexivity|].
  rewrite Nat.iter_succ, IH. now apply tick_gate_rest.
Qed.

Lemma reachable_gate_inv (s : @airlock Q) (n : gate_name) :
  reachable s -> gate_inv (gate_of n s).
Proof.
  intros Hr. apply reachable_inv in Hr. destruct Hr as (Ha & Hb & _).
  now destruct n.
Qed.

Lemma ticks_at_least_30 (k : nat) : (30 <= k)%nat -> 30 <= inject_Z (Z.of_nat k).
Proof.
  intros Hk. change 30 with (inject_Z 30). rewrite <- Zle_Qle.
  change 30%Z with (Z.of_nat 30). now apply Nat2Z.inj_le.
Qed.

Lemma ticks_under_30 (k : nat) : (k < 30)%nat -> inject_Z (Z.of_nat k) <= 29.
Proof.
  intros Hk. change 29 with (inject_Z 29). rewrite <- Zle_Qle.
  change 29%Z with (Z.of_nat 29). apply Nat2Z.inj_le.
  now apply Nat.lt_succ_r.
Qed.

(** X10.  In a run, 30 ticks (or more) with no line in between bring every
    gate to rest: a gate that was moving is then fully at its target, open
    with progress 1 or sealed with progress 0, and a gate that was at rest
    is as it was. *)
Theorem motion_completes_within_30_ticks (s : @airlock Q) (n : gate_name) (k : nat) :
  reachable s ->
  (30 <= k)%nat ->
  let g := gate_of n s in
  let g' := gate_of n (run s (repeat Tick k)) in
  gate_moving g' = false
  /\ (gate_moving g = true ->
      gate_open g' = gate_target_state g
      /\ gate_animation_progress g' = (if gate_target_state g then 1 else 0))
  /\ (gate_moving g = false -> g' = g).
Proof.
  intros Hr Hk. cbv zeta. rewrite run_ticks_gate.
  destruct (reachable_gate_inv s n Hr) as (_ & Ht & _).
  apply ticks_at_least_30 in Hk.
  destruct (gate_moving (gate_of n s)) eqn:Hm.
  - destruct (ticks_gate_cases k _ Hm) as [(M & _ & _ & Hk' & [->|Hlt])
                                          |(M & O & _ & P & _)].
    + exfalso. change (inject_Z (Z.of_nat 0)) with 0 in Hk. lra.
    + exfalso. rewrite Hk' in Hlt. lra.
    + repeat split; try assumption; discriminate.
  - rewrite (ticks_gate_rest k _ Hm). repeat split; try assumption; discriminate.
Qed.

Lemma motion_completes_within_30_ticks_witness :
  let s := run (@initial Q _) (open_cycle 7 ++ [Line "<GATE_REQUEST_A:0>"; Tick]) in
  gate_moving (gate_of GateA (run s (repeat Tick 30))) = false.
Proof.
  intros s.
  assert (Hr : reachable s) by (apply reachable_run; constructor).
  assert (Hk : (30 <= 30)%nat) by reflexivity.
  exact (proj1 (motion_completes_within_30_ticks s GateA 30 Hr Hk)).
Defined.

(** A gate at rest that is asked for its other position starts moving, with
    no time elapsed. *)
Lemma start_from_rest (s : @airlock Q) (n : gate_name) :
  airlock_inv s ->
  gate_moving (gate_of n s) = false ->
  exists s1 : airlock,
    read_arduino_data (request_line n (negb (gate_open (gate_of n s)))) s
    = Returns s1
    /\ gate_moving (gate_of n s1) = true
    /\ gate_open (gate_of n s1) = gate_open (gate_of n s)
    /\ gate_target_state (gate_of n s1) = negb (gate_open (gate_of n s))
    /\ gate_animation_time (gate_of n s1) == 0.
Proof.
  intros Hs Hm.
  assert (Hg : gate_inv (gate_of n s)).
  { destruct Hs as (Ha & Hb & _). now destruct n. }
  destruct Hg as (_ & _ & Hrest). destruct (Hrest Hm) as [Hp _].
  set (r := negb (gate_open (gate_of n s))).
  assert (Hk : is_Some (gate_requests s !! request_key n)).
  { destruct Hs as (_ & _ & _ & _ & _ & Hd). apply elem_of_dom. rewrite Hd.
    unfold request_keys. rewrite elem_of_union, !elem_of_singleton.
    destruct n; auto. }
  set (s1 := with_requests s (<[request_key n := r]> (gate_requests s))).
  assert (Hd1 : dom (gate_requests s1) = request_keys).
  { destruct Hs as (_ & _ & _ & _ & _ & Hd).
    cbn [s1 with_requests gate_requests]. rewrite <- Hd.
    now apply dom_insert_lookup_L. }
  assert (Hread : read_arduino_data (request_line n r) s = process_gate_requests s1).
  { unfold read_arduino_data. rewrite (decode_request_line n r _ Hk).
    now destruct n, r. }
  rewrite Hread.
  destruct (process_gate_requests_returns s1 Hd1) as (ra & rb & Ea & Eb & ->).
  eexists. split; [reflexivity|].
  assert (Hr : gate_requests s1 !! request_key n = Some r).
  { cbn [s1 with_requests gate_requests]. apply lookup_insert_eq. }
  destruct n; cbn [gate_of gate_a gate_b request_key s1 with_requests
                   sensor_states] in *.
  - rewrite Ea in Hr. injection Hr as ->.
    unfold process_gate_request. rewrite Hm. subst r.
    destruct (gate_open (gate_a s)); cbn [negb fst gate_moving gate_open
      gate_target_state gate_animation_time];
      repeat split; rewrite Hp; reflexivity.
  - rewrite Eb in Hr. injection Hr as ->.
    unfold process_gate_request. rewrite Hm. subst r.
    destruct (gate_open (gate_b s)); cbn [negb fst gate_moving gate_open
      gate_target_state gate_animation_time];
      repeat split; rewrite Hp; reflexivity.
Qed.

(** X11.  In a run, a gate at rest that is asked for its other position
    takes exactly 30 ticks: it is moving after every number of ticks below
    30, and from the 30th tick on it is at rest in the position asked for. *)
Theorem transition_takes_30_ticks (s : @airlock Q) (n : gate_name) (k : nat) :
  reachable s ->
  gate_moving (gate_of n s) = false ->
  let asked := negb (gate_open (gate_of n s)) in
  let s1 := state_of (read_arduino_data (request_line n asked) s) in
  let g := gate_of n (run s1 (repeat Tick k)) in
  ((k < 30)%nat -> gate_moving g = true)
  /\ ((30 <= k)%nat ->
      gate_moving g = false
      /\ gate_open g = asked
      /\ gate_animation_progress g = (if asked then 1 else 0)).
Proof.
  intros Hr Hm. cbv zeta. apply reachable_inv in Hr.
  destruct (start_from_rest s n Hr Hm) as (s1 & -> & M1 & O1 & T1 & Ht1).
  cbn [state_of]. rewrite run_ticks_gate.
  destruct (ticks_gate_cases k _ M1) as [(M & _ & _ & Hk' & Hlt)
                                        |(M & O & _ & P & _ & Hge)].
  - split; [intros _; exact M|].
    intros Hk. apply ticks_at_least_30 in Hk. exfalso.
    destruct Hlt as [->|Hlt].
    + change (inject_Z (Z.of_nat 0)) with 0 in Hk. lra.
    + rewrite Hk', Ht1 in Hlt. lra.
  - split.
    + intros Hk. apply ticks_under_30 in Hk. exfalso. rewrite Ht1 in Hge. lra.
    + intros _. rewrite T1 in *. now repeat split.
Qed.

Lemma transition_takes_30_ticks_witness :
  let s := run (@initial Q _) (open_cycle 30) in
  let s1 := state_of (read_arduino_data
                        (request_line GateA (negb (gate_open (gate_of GateA s)))) s) in
  gate_moving (gate_of GateA (run s1 (repeat Tick 29))) = true.
Proof.
  intros s.
  assert (Hr : reachable s) by (apply reachable_run; constructor).
  assert (Hm : gate_moving (gate_of GateA s) = false) by (vm_compute; reflexivity).
  exact (proj1 (transition_takes_30_ticks s GateA 29 Hr Hm) (Nat.lt_succ_diag_r 29)).
Defined.

(** *** Properties of one gate that hold along every run *)

(** What the initial gate has and both blocks keep, every gate of a run
    has. *)
Lemma gate_invariant (P : @gate Q -> Prop) :
  P initial_gate ->
  (forall g, P g -> P (tick_gate g)) ->
  (forall k r g ss, P g -> P (fst (process_gate_request k r g ss))) ->
  forall (s : @airlock Q) (n : gate_name), reachable s -> P (gate_of n s).
Proof.
  intros Hinit Htick Hreq s n Hr. revert n.
  induction Hr as [|s e _ IH]; intros n; [now destruct n|].
  destruct e as [|line|new_x|k]; cbn [step].
  - rewrite animate_gates_tick. apply Htick, IH.
  - unfold read_arduino_data.
    destruct (last_char line); [|apply IH].
    destruct (startswith "<" line && endswith ">" line); [|apply IH].
    destruct (decode_pairs line (gate_requests s)) as [requests|e requests];
      [|destruct n; apply (IH GateA) || apply (IH GateB)].
    unfold process_gate_requests. cbn [with_requests gate_requests gate_a gate_b
                                        sensor_states rover_x].
    destruct (requests !! "GATE_REQUEST_A") as [ra|];
      [|destruct n; apply (IH GateA) || apply (IH GateB)].
    destruct (requests !! "GATE_REQUEST_B") as [rb|];
      [|destruct n; apply (IH GateA) || apply (IH GateB)].
    pose proof (Hreq "GATE_MOVING_A" ra (gate_a s) (sensor_states s) (IH GateA)) as Pa.
    destruct (process_gate_request "GATE_MOVING_A" ra (gate_a s) (sensor_states s))
      as [ga ss1].
    pose proof (Hreq "GATE_MOVING_B" rb (gate_b s) ss1 (IH GateB)) as Pb.
    destruct (process_gate_request "GATE_MOVING_B" rb (gate_b s) ss1) as [gb ss2].
    destruct n; [exact Pa | exact Pb].
  - destruct n; [apply (IH GateA) | apply (IH GateB)].
  - destruct n; [apply (IH GateA) | apply (IH GateB)].
Qed.

Lemma process_gate_request_coherent (k : string) (r : bool) (g : @gate Q) (ss : dict) :
  coherent g -> coherent (fst (process_gate_request k r g ss)).
Proof.
  intros Hc. unfold process_gate_request.
  destruct r, (gate_moving g) eqn:Em, (gate_open g), (gate_target_state g) eqn:Et;
    cbn [negb fst]; try exact Hc;
    unfold coherent;
    cbn [gate_moving gate_target_state gate_animation_progress gate_animation_time];
    intros _; exact_arith; lra.
Qed.

Lemma tick_gate_coherent (g : @gate Q) : coherent g -> coherent (tick_gate g).
Proof.
  intros Hc. destruct (gate_moving g) eqn:Hm;
    [|now rewrite (tick_gate_rest _ Hm)].
  destruct (tick_gate_cases g Hm) as [(M & _)|(_ & _ & T & P & Ht & _)];
    unfold coherent.
  - rewrite M. discriminate.
  - rewrite T, P, Ht. intros _. now destruct (gate_target_state g).
Qed.

(** X12.  In every state of a run the clock of a moving gate agrees with
    its progress, also across reversals: while the gate opens, the progress
    is [elapsed / duration]; while it closes, [1 - elapsed / duration]. *)
Theorem clock_agrees_with_progress (s : @airlock Q) (n : gate_name) :
  reachable s ->
  let g := gate_of n s in
  gate_moving g = true ->
  if gate_target_state g
  then gate_animation_progress g == gate_animation_time g / gate_animation_duration
  else gate_animation_progress g
       == 1 - gate_animation_time g / gate_animation_duration.
Proof.
  intros Hr. cbv zeta.
  apply (gate_invariant coherent); try assumption.
  - unfold coherent. discriminate.
  - apply tick_gate_coherent.
  - apply process_gate_request_coherent.
Qed.

Lemma clock_agrees_with_progress_witness :
  let s := run (@initial Q _) (open_cycle 12 ++ [Line "<GATE_REQUEST_A:0>"; Tick]) in
  gate_animation_progress (gate_of GateA s)
  == 1 - gate_animation_time (gate_of GateA s) / gate_animation_duration.
Proof.
  intros s.
  assert (Hr : reachable s) by (apply reachable_run; constructor).
  assert (Hm : gate_moving (gate_of GateA s) = true) by (vm_compute; reflexivity).
  assert (Ht : gate_target_state (gate_of GateA s) = false) by (vm_compute; reflexivity).
  pose proof (clock_agrees_with_progress s GateA Hr Hm) as Hc.
  rewrite Ht in Hc. exact Hc.
Defined.

Lemma reachable_coherent (s : @airlock Q) (n : gate_name) :
  reachable s -> coherent (gate_of n s).
Proof.
  intros Hr. apply (gate_invariant coherent); try assumption.
  - unfold coherent. discriminate.
  - apply tick_gate_coherent.
  - apply process_gate_request_coherent.
Qed.

(** X13.  In a run, a tick moves the progress of a moving gate by exactly
    [dt / duration] towards its target and leaves it moving, or it ends the
    motion at the target when less than that is left; a gate at rest is
    left as it is. *)
Theorem tick_steps_towards_target (s : @airlock Q) (n : gate_name) :
  reachable s ->
  let g := gate_of n s in
  let g' := gate_of n (animate_gates s) in
  let p := gate_animation_progress g in
  let p' := gate_animation_progress g' in
  let one_tick := dt / gate_animation_duration in
  (gate_moving g = false -> g' = g)
  /\ (gate_moving g = true -> gate_target_state g = true ->
      (gate_moving g' = true /\ p' == p + one_tick)
      \/ (gate_moving g' = false /\ gate_open g' = true /\ p' = 1
          /\ 1 - one_tick <= p))
  /\ (gate_moving g = true -> gate_target_state g = false ->
      (gate_moving g' = true /\ p' == p - one_tick)
      \/ (gate_moving g' = false /\ gate_open g' = false /\ p' = 0
          /\ p <= one_tick)).
Proof.
  intros Hr. cbv zeta. rewrite animate_gates_tick.
  pose proof (reachable_coherent s n Hr) as Hc. unfold coherent in Hc.
  split; [apply tick_gate_rest|].
  split; intros Hm Ht; specialize (Hc Hm); rewrite Ht in Hc;
    destruct (tick_gate_cases _ Hm) as [(M & O & _ & P & _ & Hge)
                                       |(M & _ & _ & P & _ & Hlt)];
    rewrite Ht in *.
  - right. repeat split; try assumption. rewrite Hc. exact_arith. lra.
  - left. split; [exact M|]. rewrite P, Hc. exact_arith. lra.
  - right. repeat split; try assumption. rewrite Hc. exact_arith. lra.
  - left. split; [exact M|]. rewrite P, Hc. exact_arith. lra.
Qed.

Lemma tick_steps_towards_target_witness :
  let s := run (@initial Q _) (open_cycle 12) in
  gate_moving (gate_of GateA (animate_gates s)) = true
  \/ gate_animation_progress (gate_of GateA (animate_gates s)) = 1.
Proof.
  intros s.
  assert (Hr : reachable s) by (apply reachable_run; constructor).
  assert (Hm : gate_moving (gate_of GateA s) = true) by (vm_compute; reflexivity).
  assert (Ht : gate_target_state (gate_of GateA s) = true) by (vm_compute; reflexivity).
  destruct (proj1 (proj2 (tick_steps_towards_target s GateA Hr)) Hm Ht)
    as [[M _]|(_ & _ & P & _)]; [left; exact M | right; exact P].
Defined.

End MoreGates.

(** ** Calls in either order *)

Section Orders.
Local Open Scope Q_scope.

(** The two blocks as pairs: the gate they leave does not depend on the
    dictionary, and the dictionary gets at most one assignment, decided by
    the gate alone. *)
Lemma animate_gate_pair (k : string) (g : @gate Q) (ss : dict) :
  animate_gate k g ss
  = (tick_gate g,
     if gate_moving g && negb (gate_moving (tick_gate g))
     then dict_set k false ss else ss).
Proof.
  unfold tick_gate, animate_gate. cbv zeta.
  destruct (gate_moving g) eqn:Em; [|reflexivity].
  destruct (gate_target_state g); cbn [negb];
    match goal with
    | |- context [if fleb ?a ?b then _ else _] => destruct (fleb a b)
    end; cbn [fst gate_moving andb negb]; rewrite ?Em; reflexivity.
Qed.

Lemma process_gate_request_pair (k : string) (r : bool) (g : @gate Q) (ss : dict) :
  process_gate_request k r g ss
  = (fst (process_gate_request k r g []),
     if negb (gate_moving g) && gate_moving (fst (process_gate_request k r g []))
     then dict_set k true ss else ss).
Proof.
  unfold process_gate_request.
  destruct r, (gate_moving g) eqn:Em, (gate_open g), (gate_target_state g);
    cbn [negb fst gate_moving andb]; rewrite ?Em; reflexivity.
Qed.

Lemma reachable_snapshot (s : @airlock Q) :
  reachable s ->
  exists pf pm pb sa sb ma mb : bool,
    sensor_states s = snapshot pf pm pb sa sb ma mb.
Proof.
  intros Hr. apply reachable_inv in Hr.
  destruct Hr as (_ & _ & _ & _ & Hk & _). now apply sensor_keys_snapshot.
Qed.

(** Assignments to a snapshot. *)
Lemma dict_set_moving_a (v pf pm pb sa sb ma mb : bool) :
  dict_set "GATE_MOVING_A" v (snapshot pf pm pb sa sb ma mb)
  = snapshot pf pm pb sa sb v mb.
Proof. reflexivity. Qed.

Lemma dict_set_moving_b (v pf pm pb sa sb ma mb : bool) :
  dict_set "GATE_MOVING_B" v (snapshot pf pm pb sa sb ma mb)
  = snapshot pf pm pb sa sb ma v.
Proof. reflexivity. Qed.

Lemma update_sensors_snapshot (x : Q) (ga gb : @gate Q)
    (gr : gmap string bool) (pf pm pb sa sb ma mb : bool) :
  update_sensors
    {| rover_x := x; gate_a := ga; gate_b := gb;
       sensor_states := snapshot pf pm pb sa sb ma mb; gate_requests := gr |}
  = {| rover_x := x; gate_a := ga; gate_b := gb;
       sensor_states :=
         snapshot (presence front_sensor_x x) (presence middle_sensor_x x)
           (presence back_sensor_x x) (gate_safety gate_a_pos x)
           (gate_safety gate_b_pos x) ma mb;
       gate_requests := gr |}.
Proof.
  unfold update_sensors. cbn [rover_x gate_a gate_b sensor_states gate_requests].
  generalize (presence front_sensor_x x), (presence middle_sensor_x x),
    (presence back_sensor_x x). intros b1 b2 b3.
  destruct (gate_safety gate_a_pos x), (gate_safety gate_b_pos x); reflexivity.
Qed.

(** X14.  In a run, a move of the rover and a tick give the same state in
    either order, and so do a move of the rover and a line: the sensor
    update and the gate blocks assign different entries of the dictionary
    and different attributes. *)
Theorem rover_moves_commute (s : @airlock Q) (x : Q) (line : string) :
  reachable s ->
  animate_gates (on_canvas_drag x s) = on_canvas_drag x (animate_gates s)
  /\ state_of (read_arduino_data line (on_canvas_drag x s))
     = on_canvas_drag x (state_of (read_arduino_data line s))
  /\ raised (read_arduino_data line (on_canvas_drag x s))
     = raised (read_arduino_data line s).
Proof.
  intros Hr.
  destruct (reachable_snapshot s Hr) as (pf & pm & pb & sa & sb & ma & mb & Hss).
  destruct s as [rx ga gb ss gr]. cbn [sensor_states] in Hss. subst ss.
  unfold on_canvas_drag.
  cbn [rover_x gate_a gate_b sensor_states gate_requests].
  rewrite update_sensors_snapshot.
  split; [|].
  - unfold animate_gates.
    cbn [rover_x gate_a gate_b sensor_states gate_requests].
    rewrite !animate_gate_pair.
    destruct (gate_moving ga && negb (gate_moving (tick_gate ga)));
      destruct (gate_moving gb && negb (gate_moving (tick_gate gb)));
      rewrite ?dict_set_moving_a, ?dict_set_moving_b;
      cbn [rover_x gate_a gate_b sensor_states gate_requests];
      now rewrite update_sensors_snapshot.
  - unfold read_arduino_data.
    cbn [rover_x gate_a gate_b sensor_states gate_requests].
    destruct (last_char line);
      [|cbn [state_of rover_x gate_a gate_b sensor_states gate_requests];
        now rewrite update_sensors_snapshot].
    destruct (startswith "<" line && endswith ">" line);
      [|cbn [state_of rover_x gate_a gate_b sensor_states gate_requests];
        now rewrite update_sensors_snapshot].
    destruct (decode_pairs line gr) as [requests|e requests];
      [|cbn [state_of with_requests rover_x gate_a gate_b sensor_states
             gate_requests];
        now rewrite update_sensors_snapshot].
    unfold process_gate_requests, with_requests.
    cbn [rover_x gate_a gate_b sensor_states gate_requests].
    destruct (requests !! "GATE_REQUEST_A") as [ra|];
      [|cbn [state_of rover_x gate_a gate_b sensor_states gate_requests];
        now rewrite update_sensors_snapshot].
    destruct (requests !! "GATE_REQUEST_B") as [rb|];
      [|cbn [state_of rover_x gate_a gate_b sensor_states gate_requests];
        now rewrite update_sensors_snapshot].
    repeat match goal with
           | |- context [process_gate_request ?k ?r ?g (snapshot ?b1 ?b2 ?b3 ?b4 ?b5 ?b6 ?b7)] =>
               rewrite (process_gate_request_pair k r g
                          (snapshot b1 b2 b3 b4 b5 b6 b7));
               cbv iota beta
           | |- context [process_gate_request ?k ?r ?g (if ?c then ?d else ?d')] =>
               rewrite (process_gate_request_pair k r g (if c then d else d'));
               cbv iota beta
           end.
    destruct (negb (gate_moving ga)
              && gate_moving (fst (process_gate_request "GATE_MOVING_A" ra ga [])));
      destruct (negb (gate_moving gb)
                && gate_moving (fst (process_gate_request "GATE_MOVING_B" rb gb [])));
      rewrite ?dict_set_moving_a, ?dict_set_moving_b;
      cbn [state_of raised rover_x gate_a gate_b sensor_states gate_requests];
      now rewrite update_sensors_snapshot.
Qed.

Lemma rover_moves_commute_witness :
  let s := run (@initial Q _) (open_cycle 29) in
  animate_gates (on_canvas_drag 304 s) = on_canvas_drag 304 (animate_gates s).
Proof.
  intros s.
  assert (Hr : reachable s) by (apply reachable_run; constructor).
  exact (proj1 (rover_moves_commute s 304 "<GATE_REQUEST_B:1>" Hr)).
Defined.

End Orders.

(** ** The telegram carries its seven values *)

Section MoreCodec.

Lemma bit_char (v : bool) :
  bit v = String (if v then "1"%char else "0"%char) EmptyString.
Proof. now destruct v. Qed.

Lemma string_cons_inj (c c' : ascii) (r r' : string) :
  String c r = String c' r' -> c = c' /\ r = r'.
Proof. intros Heq. injection Heq as Hc Hr. now split. Qed.

Lemma bit_char_inj (v w : bool) :
  (if v then "1"%char else "0"%char) = (if w then "1"%char else "0"%char) ->
  v = w.
Proof. destruct v, w; try reflexivity; discriminate. Qed.

(** The seven values can be read off the message. *)
Lemma telegram_values (pf pm pb sa sb ga gb pf' pm' pb' sa' sb' ga' gb' : bool) :
  telegram pf pm pb sa sb ga gb = telegram pf' pm' pb' sa' sb' ga' gb' ->
  pf = pf' /\ pm = pm' /\ pb = pb' /\ sa = sa' /\ sb = sb'
  /\ ga = ga' /\ gb = gb'.
Proof.
  unfold telegram. rewrite !bit_char.
  cbv [join String.append]. intros Heq.
  repeat (let Hc := fresh "Hc" in
          apply string_cons_inj in Heq as [Hc Heq];
          first [ apply bit_char_inj in Hc | clear Hc ]).
  repeat split; assumption.
Qed.

(** X15.  The message that [send_data] writes determines what it was built
    from: two states of runs for which [send_data] writes the same message
    have the same sensor dictionary (all seven entries) and the same moving
    flags of both gates. *)
Theorem telegram_injective (s s' : @airlock Q) :
  reachable s ->
  reachable s' ->
  send_data true s = send_data true s' ->
  sensor_states s = sensor_states s'
  /\ gate_moving (gate_a s) = gate_moving (gate_a s')
  /\ gate_moving (gate_b s) = gate_moving (gate_b s').
Proof.
  intros Hr Hr' Heq.
  destruct (reachable_snapshot s Hr) as (pf & pm & pb & sa & sb & ma & mb & Hs).
  destruct (reachable_snapshot s' Hr')
    as (pf' & pm' & pb' & sa' & sb' & ma' & mb' & Hs').
  apply reachable_inv in Hr, Hr'.
  destruct Hr as (_ & _ & Ma & Mb & _), Hr' as (_ & _ & Ma' & Mb' & _).
  unfold mirrored in Ma, Mb, Ma', Mb'. cbn [moving_key gate_of] in Ma, Mb, Ma', Mb'.
  unfold send_data in Heq. cbn [negb] in Heq. rewrite Hs, Hs' in *.
  assert (Henc : forall pf pm pb sa sb ma mb ga gb : bool,
             encode (snapshot pf pm pb sa sb ma mb) ga gb
             = telegram pf pm pb sa sb ga gb) by reflexivity.
  rewrite !Henc in Heq. apply (inj Some) in Heq.
  apply telegram_values in Heq as (-> & -> & -> & -> & -> & Ha & Hb).
  cbn in Ma, Mb, Ma', Mb'.
  injection Ma as ->. injection Mb as ->. injection Ma' as ->. injection Mb' as ->.
  rewrite Ha, Hb. repeat split; reflexivity.
Qed.

Lemma telegram_injective_witness :
  let s := run (@initial Q _) (open_cycle 12) in
  let s' := run (@initial Q _) (open_cycle 5) in
  sensor_states s = sensor_states s'
  /\ gate_moving (gate_a s) = gate_moving (gate_a s')
  /\ gate_moving (gate_b s) = gate_moving (gate_b s').
Proof.
  intros s s'.
  assert (Hr : reachable s) by (apply reachable_run; constructor).
  assert (Hr' : reachable s') by (apply reachable_run; constructor).
  assert (Heq : send_data true s = send_data true s') by (vm_compute; reflexivity).
  exact (telegram_injective s s' Hr Hr' Heq).
Defined.

End MoreCodec.

(** ** The easing curve and the drawn gate *)

Section Drawing.
Local Open Scope Q_scope.

Ltac ease_arith :=
  unfold ease_in_out_cubic, cube;
  repeat match goal with
         | |- context [if fltb ?a ?b then _ else _] => destruct (fltb a b) eqn:?
         end;
  exact_order; exact_arith.

Lemma cube_monotone (a b : Q) : a <= b -> a * a * a <= b * b * b.
Proof.
  intros Hab.
  assert (H0 : 0 <= (b - a) * ((a + b) * (a + b) + a * a + b * b)).
  { apply Qmult_le_0_compat; [lra|]. nra. }
  nra.
Qed.

(** The curve, without the test. *)
Lemma ease_low (t : Q) : t < 1 # 2 -> ease_in_out_cubic t == 4 * (t * t * t).
Proof. intros Ht. ease_arith; lra. Qed.

Lemma ease_high (t : Q) :
  1 # 2 <= t ->
  ease_in_out_cubic t == 1 - (1 # 2) * ((2 - 2 * t) * (2 - 2 * t) * (2 - 2 * t)).
Proof. intros Ht. ease_arith; lra. Qed.

(** X16.  The easing curve fixes 0, one half and 1, maps the unit interval
    into itself, and is symmetric about the centre:
    [ease (1 - t) = 1 - ease t]. *)
Theorem ease_fixes_ends_and_is_symmetric (t : Q) :
  ease_in_out_cubic 0 == 0
  /\ ease_in_out_cubic (1 # 2) == 1 # 2
  /\ ease_in_out_cubic 1 == 1
  /\ ease_in_out_cubic (1 - t) == 1 - ease_in_out_cubic t
  /\ (0 <= t -> t <= 1 -> 0 <= ease_in_out_cubic t /\ ease_in_out_cubic t <= 1).
Proof.
  split; [reflexivity|]. split; [reflexivity|]. split; [reflexivity|].
  split.
  - destruct (Qlt_le_dec t (1 # 2)) as [Hlo|Hhi].
    + rewrite (ease_low t Hlo), (ease_high (1 - t)) by lra. ring.
    + destruct (Qlt_le_dec (1 # 2) t) as [Hgt|Hle].
      * rewrite (ease_high t Hhi), (ease_low (1 - t)) by lra. ring.
      * assert (Ht : t == 1 # 2) by lra.
        rewrite (ease_high t Hhi), (ease_high (1 - t)) by lra.
        rewrite Ht. reflexivity.
  - intros H0 H1.
    destruct (Qlt_le_dec t (1 # 2)) as [Hlo|Hhi].
    + rewrite (ease_low t Hlo).
      pose proof (cube_monotone 0 t H0) as Ha.
      pose proof (cube_monotone t (1 # 2) ltac:(lra)) as Hb.
      split; lra.
    + rewrite (ease_high t Hhi).
      pose proof (cube_monotone 0 (2 - 2 * t) ltac:(lra)) as Ha.
      pose proof (cube_monotone (2 - 2 * t) 1 ltac:(lra)) as Hb.
      split; lra.
Qed.

(** X17.  The easing curve never decreases. *)
Theorem ease_monotone (t u : Q) :
  t <= u -> ease_in_out_cubic t <= ease_in_out_cubic u.
Proof.
  intros Htu.
  destruct (Qlt_le_dec t (1 # 2)) as [Ht|Ht];
    destruct (Qlt_le_dec u (1 # 2)) as [Hu|Hu].
  - rewrite (ease_low t Ht), (ease_low u Hu).
    pose proof (cube_monotone t u Htu). lra.
  - rewrite (ease_low t Ht), (ease_high u Hu).
    pose proof (cube_monotone t (1 # 2) ltac:(lra)) as Ha.
    pose proof (cube_monotone (2 - 2 * u) 1 ltac:(lra)) as Hb.
    lra.
  - lra.
  - rewrite (ease_high t Ht), (ease_high u Hu).
    pose proof (cube_monotone (2 - 2 * u) (2 - 2 * t) ltac:(lra)). lra.
Qed.

Lemma ease_monotone_witness :
  ease_in_out_cubic (1 # 4) <= ease_in_out_cubic (3 # 4).
Proof.
  assert (Htu : 1 # 4 <= 3 # 4) by (apply Qle_bool_iff; reflexivity).
  exact (ease_monotone (1 # 4) (3 # 4) Htu).
Defined.

Lemma ease_range (t : Q) :
  0 <= t -> t <= 1 -> 0 <= ease_in_out_cubic t /\ ease_in_out_cubic t <= 1.
Proof.
  intros H0 H1.
  destruct (Qlt_le_dec t (1 # 2)) as [Hlo|Hhi].
  - rewrite (ease_low t Hlo).
    pose proof (cube_monotone 0 t H0) as Ha.
    pose proof (cube_monotone t (1 # 2) ltac:(lra)) as Hb.
    split; lra.
  - rewrite (ease_high t Hhi).
    pose proof (cube_monotone 0 (2 - 2 * t) ltac:(lra)) as Ha.
    pose proof (cube_monotone (2 - 2 * t) 1 ltac:(lra)) as Hb.
    split; lra.
Qed.

(** The rectangle for an eased progress within the unit interval. *)
Lemma rectangle_of_eased (e : Q) :
  0 <= e -> e <= 1 ->
  let gate_y := (start_y + airlock_height * e)%num in
  let gate_height := (airlock_height * (of_Z 1 - e))%num in
  let gate_height := if (gate_height <? of_Z 5)%num then of_Z 5 else gate_height in
  (50 <= gate_y /\ gate_y <= 225)
  /\ (5 <= gate_height /\ gate_height <= 175)
  /\ (225 <= gate_y + gate_height /\ gate_y + gate_height <= 230)
  /\ (e == 0 -> gate_y == 50 /\ gate_height == 175)
  /\ (e == 1 -> gate_y == 225 /\ gate_height == 5).
Proof.
  intros H0 H1. cbv zeta.
  match goal with
  | |- context [if fltb ?a ?b then _ else _] => destruct (fltb a b) eqn:Ec
  end; exact_order; unfold start_y, airlock_height in *; exact_arith;
  repeat split; intros; lra.
Qed.

(** X18.  In exact arithmetic: in every state of a run, the rectangle
    drawn for a gate has its top between 50 and 225 and a height between 5
    and 175, and its bottom edge is on the floor of the chamber (at 225) or
    up to 5 pixels below; a sealed gate at rest fills the chamber (top 50,
    height 175), an open one leaves a stub of 5 pixels at the floor.  (In
    binary64 the sum of top and height is rounded, so the bottom edge of a
    moving gate is at 225 only up to rounding.) *)
Theorem drawn_gate_stays_in_chamber (s : @airlock Q) (n : gate_name) :
  reachable s ->
  let g := gate_of n s in
  let gate_y := fst (gate_rectangle g) in
  let gate_height := snd (gate_rectangle g) in
  (50 <= gate_y /\ gate_y <= 225)
  /\ (5 <= gate_height /\ gate_height <= 175)
  /\ (225 <= gate_y + gate_height /\ gate_y + gate_height <= 230)
  /\ (status_text g = SEALED -> gate_y == 50 /\ gate_height == 175)
  /\ (status_text g = OPEN -> gate_y == 225 /\ gate_height == 5).
Proof.
  intros Hr. cbv zeta.
  destruct (reachable_gate_inv s n Hr) as ((Hp0 & Hp1) & _ & Hrest).
  unfold gate_rectangle, status_text. cbv zeta. cbn [fst snd].
  destruct (gate_moving (gate_of n s)) eqn:Hm.
  - destruct (ease_range _ Hp0 Hp1) as [He0 He1].
    destruct (rectangle_of_eased _ He0 He1) as (Hy & Hh & Hb & _ & _).
    split; [exact Hy|]. split; [exact Hh|]. split; [exact Hb|].
    destruct (gate_target_state (gate_of n s)); cbn [andb negb];
      split; discriminate.
  - destruct (Hrest eq_refl) as [Hp _].
    destruct (rectangle_of_eased _ Hp0 Hp1) as (Hy & Hh & Hb & Hs & Ho).
    split; [exact Hy|]. split; [exact Hh|]. split; [exact Hb|].
    cbn [andb]. destruct (gate_open (gate_of n s)); split; intros Hst;
      try discriminate Hst.
    + apply Ho. rewrite Hp. reflexivity.
    + apply Hs. rewrite Hp. reflexivity.
Qed.

Lemma drawn_gate_stays_in_chamber_witness :
  let s := run (@initial Q _) (open_cycle 12) in
  5 <= snd (gate_rectangle (gate_of GateA s))
  /\ snd (gate_rectangle (gate_of GateA s)) <= 175.
Proof.
  intros s.
  assert (Hr : reachable s) by (apply reachable_run; constructor).
  exact (proj1 (proj2 (drawn_gate_stays_in_chamber s GateA Hr))).
Defined.

End Drawing.

(** ** Particles *)

Section Particles.
Local Open Scope Q_scope.

(** One pass keeps the order, drops particles, and ages the others. *)
Lemma update_particles_aged (c : Q) (l : list (@particle Q)) :
  Forall (fun p => particle_life p <= c) l ->
  Forall (fun p => 0 < particle_life p
                   /\ particle_life p <= c - (15 # 1000)
                   /\ 9 # 10 < particle_size p)
         (update_particles l).
Proof.
  induction l as [|p rest IH]; intros Hall; [constructor|].
  inversion Hall as [|? ? Hp Hrest]; subst. cbn [update_particles]. cbv zeta.
  destruct (fltb (of_Z 0) (particle_life (update_particle p))) eqn:E1;
    [|now apply IH].
  destruct (fltb (lit 9 10) (particle_size (update_particle p))) eqn:E2;
    [|now apply IH].
  cbn [andb]. constructor; [|now apply IH].
  exact_order. unfold update_particle in *.
  cbn [particle_life particle_size] in *. exact_arith. repeat split; lra.
Qed.

Lemma update_particles_alive (l : list (@particle Q)) :
  Forall (fun p => 0 < particle_life p /\ 9 # 10 < particle_size p)
         (update_particles l).
Proof.
  induction l as [|p rest IH]; [constructor|].
  cbn [update_particles]. cbv zeta.
  destruct (fltb (of_Z 0) (particle_life (update_particle p))) eqn:E1;
    [|exact IH].
  destruct (fltb (lit 9 10) (particle_size (update_particle p))) eqn:E2;
    [|exact IH].
  cbn [andb]. constructor; [|exact IH].
  exact_order. exact_arith. split; lra.
Qed.

Lemma update_particles_length (l : list (@particle Q)) :
  (length (update_particles l) <= length l)%nat.
Proof.
  induction l as [|p rest IH]; [reflexivity|].
  cbn [update_particles]. cbv zeta.
  destruct (_ && _); cbn [length]; [now apply le_n_S | now apply Nat.le_le_succ_r].
Qed.

Lemma updates_aged (k : nat) (c : Q) (l : list (@particle Q)) :
  Forall (fun p => particle_life p <= c) l ->
  Forall (fun p => particle_life p <= c - inject_Z (Z.of_nat k) * (15 # 1000))
         (Nat.iter k update_particles l)
  /\ (k <> O -> Forall (fun p => 0 < particle_life p) (Nat.iter k update_particles l)).
Proof.
  intros Hall. induction k as [|k [IH _]].
  - split; [|congruence]. change (Nat.iter 0 update_particles l) with l.
    eapply List.Forall_impl; [|exact Hall]. intros p Hp. cbv beta in *.
    change (inject_Z (Z.of_nat 0)) with 0. lra.
  - rewrite Nat.iter_succ.
    assert (Hk : inject_Z (Z.of_nat (S k)) == inject_Z (Z.of_nat k) + 1).
    { rewrite Nat2Z.inj_succ, <- Z.add_1_r, inject_Z_plus. reflexivity. }
    pose proof (update_particles_aged _ _ IH) as Hstep.
    split; [|intros _].
    + eapply List.Forall_impl; [|exact Hstep]. intros p (_ & Hp & _).
      cbv beta in *. rewrite Hk. lra.
    + eapply List.Forall_impl; [|exact Hstep]. intros p (Hp & _). exact Hp.
Qed.

(** X19.  One pass of [update_particles] returns only particles with life
    above 0 and size above 0.9, never more than it was given; and particles
    of life at most 1, as [create_gate_particles] makes them, are all gone
    after 67 passes, whatever was drawn for them. *)
Theorem particles_die_out (l : list (@particle Q)) (gate_x : Q)
    (gate_type : string) (r : @draws Q) :
  Forall (fun p => 0 < particle_life p /\ 9 # 10 < particle_size p)
         (update_particles l)
  /\ (length (update_particles l) <= length l)%nat
  /\ (Forall (fun p => particle_life p <= 1) l ->
      Nat.iter 67 update_particles l = [])
  /\ Nat.iter 67 update_particles (create_gate_particles gate_x gate_type r) = [].
Proof.
  assert (Hdie : forall l' : list (@particle Q),
             Forall (fun p => particle_life p <= 1) l' ->
             Nat.iter 67 update_particles l' = []).
  { intros l' Hall.
    destruct (updates_aged 67 1 l' Hall) as [Hle Hpos].
    specialize (Hpos ltac:(discriminate)).
    destruct (Nat.iter 67 update_particles l') as [|p rest]; [reflexivity|].
    exfalso. inversion Hle as [|? ? Hp _]; inversion Hpos as [|? ? Hp' _]; subst.
    cbv beta in *. change (inject_Z (Z.of_nat 67)) with 67 in Hp. lra. }
  split; [|split; [apply update_particles_length|split; [apply Hdie|]]].
  - apply update_particles_alive.
  - apply Hdie. unfold create_gate_particles. cbv zeta. constructor; [|constructor].
    cbn [particle_life]. exact_arith. lra.
Qed.

End Particles.

(** ** Typed commands *)

Section Commands.

Lemma startswith_append (c : ascii) (a b : string) :
  startswith c a = true -> startswith c (a +:+ b) = true.
Proof. destruct a as [|x a]; [discriminate|]. now rewrite append_cons. Qed.

Lemma endswith_append (c : ascii) (b : string) :
  endswith c (b +:+ String c EmptyString) = true.
Proof. unfold endswith. rewrite last_char_append. apply Ascii.eqb_refl. Qed.

Lemma last_char_cons (c : ascii) (r : string) :
  r <> EmptyString -> last_char (String c r) = last_char r.
Proof. destruct r; [congruence | reflexivity]. Qed.

(** X20.  The command that [send_command] writes always starts with [<]
    and ends with [>], so it passes the delimiter test of a reader; framing
    a framed command changes nothing, and a command typed without either
    delimiter is what lies between the delimiters added. *)
Theorem typed_command_is_framed (command : string) :
  let framed := frame_command command in
  startswith "<" framed && endswith ">" framed = true
  /\ frame_command framed = framed
  /\ (startswith "<" command = false -> endswith ">" command = false ->
      strip_delimiters framed = command)
  /\ (command <> EmptyString ->
      send_command true command = Some framed
      /\ send_command false command = None).
Proof.
  cbv zeta.
  assert (Hframed : startswith "<" (frame_command command) = true
                    /\ endswith ">" (frame_command command) = true).
  { unfold frame_command. cbv zeta.
    destruct (startswith "<" command) eqn:Es; cbn [negb].
    - destruct (endswith ">" command) eqn:Ee; cbn [negb].
      + now split.
      + split; [now apply startswith_append | apply endswith_append].
    - destruct (endswith ">" ("<" +:+ command)) eqn:Ee; cbn [negb].
      + now split.
      + split; [reflexivity | apply endswith_append]. }
  destruct Hframed as [Hs He].
  split; [now rewrite Hs, He|].
  split; [unfold frame_command at 1; cbv zeta; rewrite Hs; cbn [negb];
          now rewrite He|].
  split.
  - intros Es Ee. unfold frame_command. cbv zeta. rewrite Es. cbn [negb].
    assert (Ee' : endswith ">" ("<" +:+ command) = false).
    { destruct command as [|c r]; [reflexivity|].
      unfold endswith in *. change ("<" +:+ String c r) with (String "<" (String c r)).
      rewrite last_char_cons by discriminate. exact Ee. }
    rewrite Ee'. cbn [negb].
    change (("<" +:+ command) +:+ ">") with (String "<" (command +:+ ">")).
    cbn [strip_delimiters]. apply drop_last_append.
  - intros Hne. unfold send_command.
    destruct command; [congruence | now split].
Qed.

End Commands.

(** ** The mouse *)

Section Mouse.
Local Open Scope Q_scope.

(** After any sequence of mouse events, a pointer that drags has its start
    offset. *)
Lemma mouse_run_offset (events : list (@mouse Q)) (p : @pointer Q) (s : @airlock Q) :
  (rover_dragging p = true -> is_Some (drag_start_x p)) ->
  let p' := fst (fold_left mouse_step events (p, s)) in
  rover_dragging p' = true -> is_Some (drag_start_x p').
Proof.
  cbv zeta. revert p s. induction events as [|e rest IH]; intros p s Hp.
  - exact Hp.
  - cbn [fold_left]. destruct e as [ex ey|ex|]; cbn [mouse_step].
    + apply IH. unfold on_canvas_click. cbv zeta.
      destruct (_ && _); [intros _; cbn; eauto | exact Hp].
    + destruct (on_canvas_motion ex p s); now apply IH.
    + apply IH. cbn. discriminate.
Qed.

(** X21.  However the mouse is clicked, moved and released, the motion
    handler never reads [self.drag_start_x] before a click on the rover has
    assigned it: from the initial pointer no sequence of mouse events leads
    to the missing attribute. *)
Theorem drag_offset_always_defined (events : list (@mouse Q)) (s : @airlock Q)
    (event_x : Q) :
  let '(p, s') := fold_left mouse_step events (initial_pointer, s) in
  on_canvas_motion event_x p s' <> None.
Proof.
  pose proof (mouse_run_offset events initial_pointer s) as Hoff. cbv zeta in Hoff.
  destruct (fold_left mouse_step events (initial_pointer, s)) as [p s'].
  cbn [fst] in Hoff. unfold on_canvas_motion.
  destruct (rover_dragging p); [|discriminate].
  destruct (Hoff ltac:(discriminate) eq_refl) as [start ->]. discriminate.
Qed.

(** X22.  A click on the rover followed by a motion of the mouse moves the
    rover by the displacement of the mouse, wherever on the rover it was
    grabbed, and derives the sensors for the new position; a motion
    without a grab changes nothing. *)
Theorem rover_follows_the_mouse (s : @airlock Q) (p : @pointer Q)
    (click_x click_y event_x : Q) :
  rover_x s - rover_width / 2 <= click_x ->
  click_x <= rover_x s + rover_width / 2 ->
  rover_y - rover_height / 2 <= click_y ->
  click_y <= rover_y + rover_height / 2 ->
  exists s' : airlock,
    on_canvas_motion event_x (on_canvas_click click_x click_y p s) s = Some s'
    /\ rover_x s' == rover_x s + (event_x - click_x)
    /\ s' = on_canvas_drag (rover_x s') s
    /\ on_canvas_motion event_x (on_canvas_release p) s = Some s.
Proof.
  intros H1 H2 H3 H4.
  apply fleb_le in H1, H2, H3, H4.
  unfold on_canvas_click. cbv zeta.
  change (rover_x s - rover_width / of_Z 2)%num with (rover_x s - rover_width / 2).
  change (rover_x s + rover_width / of_Z 2)%num with (rover_x s + rover_width / 2).
  change (rover_y - rover_height / of_Z 2)%num with (@rover_y Q _ - rover_height / 2).
  change (rover_y + rover_height / of_Z 2)%num with (@rover_y Q _ + rover_height / 2).
  rewrite H1, H2, H3, H4. cbn [andb].
  unfold on_canvas_motion. cbn [rover_dragging drag_start_x on_canvas_release].
  eexists. split; [reflexivity|].
  split; [|split; reflexivity].
  unfold on_canvas_drag, update_sensors. cbn [rover_x]. cbn [fsub exact]. ring.
Qed.

Lemma rover_follows_the_mouse_witness :
  exists s' : airlock,
    on_canvas_motion 300 (on_canvas_click 60 140 initial_pointer initial) initial
    = Some s'
    /\ rover_x s' == rover_x (@initial Q _) + (300 - 60).
Proof.
  assert (H1 : rover_x (@initial Q _) - rover_width / 2 <= 60)
    by (apply Qle_bool_iff; reflexivity).
  assert (H2 : 60 <= rover_x (@initial Q _) + rover_width / 2)
    by (apply Qle_bool_iff; reflexivity).
  assert (H3 : @rover_y Q _ - rover_height / 2 <= 140)
    by (apply Qle_bool_iff; reflexivity).
  assert (H4 : 140 <= @rover_y Q _ + rover_height / 2)
    by (apply Qle_bool_iff; reflexivity).
  destruct (rover_follows_the_mouse initial initial_pointer 60 140 300 H1 H2 H3 H4)
    as (s' & Hs' & Hx & _).
  exists s'. split; [exact Hs' | exact Hx].
Defined.

End Mouse.
